(** * The transaction ledger of src/context/TransactionContext.tsx

    A shallow embedding of the [TransactionProvider] component: the list of
    transactions it keeps in React state, the two effects (initial load,
    save to [localStorage]) and the five callbacks it publishes
    ([getTransaction], [getClientTransactions], [addTransaction],
    [transferFunds], [deleteTransaction]), followed by the properties of the
    ledger specification that are stated about them. *)

From Stdlib Require Import List String ZArith Bool Arith Lia.
From Stdlib Require Import DecimalString DecimalNat.
Import ListNotations.

Local Open Scope string_scope.
Local Open Scope list_scope.

(** ** Data model *)

(** Modelled from the spec: the declaration of [Transaction] lives in
    [../types], which is not part of the sources at hand.  Section 3 of the
    specification lists its fields; [type] is one of [deposit], [withdrawal],
    [transfer].  The component compares [type] with ['deposit'] and writes
    ['transfer'] itself. *)
Inductive TransactionType : Type :=
  | deposit
  | withdrawal
  | transfer.

Definition TransactionType_eqb (a b : TransactionType) : bool :=
  match a, b with
  | deposit, deposit | withdrawal, withdrawal | transfer, transfer => true
  | _, _ => false
  end.

(** The values the [amount] property takes at run time.  It is declared a
    JavaScript [number] and no callback checks it: the finite numbers are
    taken to be the integers, and [NaN], [Infinity] and [-Infinity] are kept
    apart because [JSON.stringify] cannot write them.  [NullAmount] is [null],
    which [JSON.stringify] writes in their place and which [JSON.parse] gives
    back, the parsed array being used as a [Transaction[]] unchecked.  An
    integer stands for the finite number it is. *)
Inductive Amount : Type :=
  | Finite (z : Z)
  | NaN
  | Infinity
  | NegInfinity
  | NullAmount.

Bind Scope Z_scope with Amount.
Coercion Finite : Z >-> Amount.


(** [a >= 0]: false of [NaN], true of [null], which compares as [0]. *)
Definition nonNegative (a : Amount) : Prop :=
  match a with
  | Finite z => (0 <= z)%Z
  | Infinity => True
  | NullAmount => True
  | NaN => False
  | NegInfinity => False
  end.

(** Modelled from the spec: the fields of a [Transaction] (section 3).
    [status] is kept as the string the component writes.  The two recipient
    fields are optional properties: [None] is [undefined]. *)
Record Transaction : Type := mkTransaction {
  id : string;
  clientId : string;
  accountId : string;
  type : TransactionType;
  amount : Amount;
  description : string;
  date : string;
  status : string;
  currency : string;
  recipientAccountId : option string;
  recipientClientId : option string
}.

(** The argument of [addTransaction]: [Omit<Transaction, 'id' | 'date' | 'status'>]. *)
Module NewTransaction.
Record t : Type := mk {
  clientId : string;
  accountId : string;
  type : TransactionType;
  amount : Amount;
  description : string;
  currency : string;
  recipientAccountId : option string;
  recipientClientId : option string
}.
End NewTransaction.

(** The argument of [transferFunds]. *)
Module TransferParams.
Record t : Type := mk {
  fromClientId : string;
  fromAccountId : string;
  toClientId : string;
  toAccountId : string;
  amount : Amount;
  description : string;
  currency : string
}.
End TransferParams.

(** ** JSON values and the snapshot kept in [localStorage] *)

(** The values [JSON.parse] can return. *)
#[warnings="-register-all"]
Inductive JSON : Type :=
  | JNull
  | JBool (b : bool)
  | JNumber (n : Z)
  | JString (s : string)
  | JArray (items : list JSON)
  | JObject (props : list (string * JSON)).

(** A string held by [localStorage], up to what the component can observe of
    it: the empty string (falsy in [if (storedTransactions)]), a text that
    [JSON.parse] rejects with a [SyntaxError], or the text of a JSON value. *)
Inductive StoredText : Type :=
  | EmptyText
  | Malformed
  | TextOf (v : JSON).

(** [JSON.parse]: [None] stands for the thrown [SyntaxError]. *)
Definition JSON_parse (s : StoredText) : option JSON :=
  match s with
  | EmptyText => None
  | Malformed => None
  | TextOf v => Some v
  end.

(** Truthiness of a string. *)
Definition truthy (s : StoredText) : bool :=
  match s with
  | EmptyText => false
  | _ => true
  end.

Definition typeName (k : TransactionType) : string :=
  match k with
  | deposit => "deposit"
  | withdrawal => "withdrawal"
  | transfer => "transfer"
  end.

Definition typeOfName (s : string) : option TransactionType :=
  if s =? "deposit" then Some deposit
  else if s =? "withdrawal" then Some withdrawal
  else if s =? "transfer" then Some transfer
  else None.

(** An optional property: [JSON.stringify] leaves out a property whose value is
    [undefined]. *)
Definition optionalProp (key : string) (v : option string) : list (string * JSON) :=
  match v with
  | Some s => [(key, JString s)]
  | None => []
  end.

(** What [JSON.stringify] writes for a number: [null] when it is not finite. *)
Definition stringifyAmount (a : Amount) : JSON :=
  match a with
  | Finite z => JNumber z
  | _ => JNull
  end.

(** What [JSON.stringify] writes for one transaction object. *)
Definition stringifyTransaction (t : Transaction) : JSON :=
  JObject
    ([ ("id", JString (id t));
       ("clientId", JString (clientId t));
       ("accountId", JString (accountId t));
       ("type", JString (typeName (type t)));
       ("amount", stringifyAmount (amount t));
       ("description", JString (description t));
       ("date", JString (date t));
       ("status", JString (status t));
       ("currency", JString (currency t)) ]
     ++ optionalProp "recipientAccountId" (recipientAccountId t)
     ++ optionalProp "recipientClientId" (recipientClientId t)).

(** [JSON.stringify(transactions)]. *)
Definition JSON_stringify (ts : list Transaction) : StoredText :=
  TextOf (JArray (map stringifyTransaction ts)).

(** Property read [o.key] on a parsed object.  When a key is repeated in the
    text, [JSON.parse] keeps the last binding. *)
Fixpoint prop (key : string) (props : list (string * JSON)) : option JSON :=
  match props with
  | [] => None
  | (k, v) :: rest =>
      match prop key rest with
      | Some later => Some later
      | None => if k =? key then Some v else None
      end
  end.

Definition stringProp (key : string) (props : list (string * JSON)) : option string :=
  match prop key props with
  | Some (JString s) => Some s
  | _ => None
  end.

(** The [amount] property: a number, or the [null] written for a number that
    is not finite. *)
Definition amountProp (key : string) (props : list (string * JSON)) : option Amount :=
  match prop key props with
  | Some (JNumber n) => Some (Finite n)
  | Some JNull => Some NullAmount
  | _ => None
  end.

(** An optional string property: absent is [undefined]; any value other than a
    string is outside [string | undefined]. *)
Definition optionalStringProp (key : string) (props : list (string * JSON))
  : option (option string) :=
  match prop key props with
  | None => Some None
  | Some (JString s) => Some (Some s)
  | Some _ => None
  end.

Definition obind {A B : Type} (o : option A) (k : A -> option B) : option B :=
  match o with
  | Some a => k a
  | None => None
  end.

Declare Scope opt_scope.
Delimit Scope opt_scope with opt.
Notation "x <-? o ; k" := (obind o (fun x => k))
  (at level 61, o at next level, right associativity) : opt_scope.

(** The parsed value read at type [Transaction]: [JSON.parse] returns [any]
    and the component uses the result as a [Transaction[]] unchecked.  [None]
    marks a value that is not of that type. *)
Definition asTransaction (v : JSON) : option Transaction :=
  match v with
  | JObject props =>
      (i <-? stringProp "id" props;
       c <-? stringProp "clientId" props;
       a <-? stringProp "accountId" props;
       k <-? obind (stringProp "type" props) typeOfName;
       n <-? amountProp "amount" props;
       d <-? stringProp "description" props;
       dt <-? stringProp "date" props;
       st <-? stringProp "status" props;
       cur <-? stringProp "currency" props;
       ra <-? optionalStringProp "recipientAccountId" props;
       rc <-? optionalStringProp "recipientClientId" props;
       Some (mkTransaction i c a k n d dt st cur ra rc))%opt
  | _ => None
  end.

Fixpoint asTransactions (items : list JSON) : option (list Transaction) :=
  match items with
  | [] => Some []
  | v :: rest =>
      (t <-? asTransaction v;
       ts <-? asTransactions rest;
       Some (t :: ts))%opt
  end.

Definition asTransactionArray (v : JSON) : option (list Transaction) :=
  match v with
  | JArray items => asTransactions items
  | _ => None
  end.

(** ** The component's state and its collaborators *)

(** One call of [updateClientBalance(clientId, accountId, amount, isCredit)]
    (from [ClientContext], the Balance Adjuster of the specification). *)
Record BalanceCall : Type := mkBalanceCall {
  callClientId : string;
  callAccountId : string;
  callAmount : Amount;
  isCredit : bool
}.

(** Everything a callback of the provider can read or write:
    - [transactions], [loading], [error]: the three [useState] cells;
    - [localStorage]: the item under ['volvy-bank-transactions'];
    - [balanceCalls], [toasts]: the calls made so far to
      [updateClientBalance] and [toast.success], oldest first;
    - [nextId]: the state of [getNewId]. *)
Record World : Type := mkWorld {
  transactions : list Transaction;
  loading : bool;
  error : option string;
  localStorage : option StoredText;
  balanceCalls : list BalanceCall;
  toasts : list string;
  nextId : nat
}.

(** The outcome of a computation: its value, the world it leaves, and whether
    it gave a new value to [transactions] or [loading], the dependencies
    of the save effect. *)
Record Outcome (A : Type) : Type := mkOutcome {
  value : A;
  world : World;
  depsChanged : bool
}.
Arguments mkOutcome {A} _ _ _.
Arguments value {A} _.
Arguments world {A} _.
Arguments depsChanged {A} _.

(** A small state monad over [World] that also collects [depsChanged]. *)
Definition M (A : Type) : Type := World -> Outcome A.

Definition ret {A : Type} (a : A) : M A := fun w => mkOutcome a w false.

Definition bind {A B : Type} (m : M A) (k : A -> M B) : M B :=
  fun w =>
    let r1 := m w in
    let r2 := k (value r1) (world r1) in
    mkOutcome (value r2) (world r2) (depsChanged r1 || depsChanged r2).

Declare Scope ledger_scope.
Delimit Scope ledger_scope with ledger.
Notation "x <- m ;; k" := (bind m (fun x => k))
  (at level 61, m at next level, right associativity) : ledger_scope.
Notation "m ;; k" := (bind m (fun _ => k))
  (at level 61, right associativity) : ledger_scope.
Local Open Scope ledger_scope.

(** [setTransactions(updater)]: the updater returns a new array, so the
    dependency always changes. *)
Definition setTransactions (f : list Transaction -> list Transaction) : M unit :=
  fun w => mkOutcome tt
             (mkWorld (f (transactions w)) (loading w) (error w) (localStorage w)
                      (balanceCalls w) (toasts w) (nextId w))
             true.

(** [setLoading(b)]: the dependency changes when the value does. *)
Definition setLoading (b : bool) : M unit :=
  fun w => mkOutcome tt
             (mkWorld (transactions w) b (error w) (localStorage w)
                      (balanceCalls w) (toasts w) (nextId w))
             (negb (Bool.eqb (loading w) b)).

(** [setError(msg)]: [error] is no dependency of the save effect. *)
Definition setError (msg : string) : M unit :=
  fun w => mkOutcome tt
             (mkWorld (transactions w) (loading w) (Some msg) (localStorage w)
                      (balanceCalls w) (toasts w) (nextId w))
             false.

(** [localStorage.setItem('volvy-bank-transactions', text)]. *)
Definition setItem (text : StoredText) : M unit :=
  fun w => mkOutcome tt
             (mkWorld (transactions w) (loading w) (error w) (Some text)
                      (balanceCalls w) (toasts w) (nextId w))
             false.

(** [updateClientBalance(...)]: the call is recorded; what it does to the
    client store is not the ledger's. *)
Definition updateClientBalance (c a : string) (n : Amount) (credit : bool) : M unit :=
  fun w => mkOutcome tt
             (mkWorld (transactions w) (loading w) (error w) (localStorage w)
                      (balanceCalls w ++ [mkBalanceCall c a n credit])
                      (toasts w) (nextId w))
             false.

(** [toast.success(msg)]. *)
Definition toast_success (msg : string) : M unit :=
  fun w => mkOutcome tt
             (mkWorld (transactions w) (loading w) (error w) (localStorage w)
                      (balanceCalls w) (toasts w ++ [msg]) (nextId w))
             false.

(** Decimal numeral of a natural number. *)
Definition decimal (n : nat) : string :=
  NilEmpty.string_of_uint (Nat.to_uint n).

(** The first index from [k] on, at most [fuel] steps further, such that the
    prefix followed by its numeral is not in [used]. *)
Fixpoint firstFree (prefix : string) (used : list string) (fuel k : nat) : nat :=
  match fuel with
  | O => k
  | S fuel' =>
      if existsb (String.eqb (prefix ++ decimal k)) used
      then firstFree prefix used fuel' (S k)
      else k
  end.

(** The index of the next id: the first one, from the counter on, that gives
    an id no record of the collection carries. *)
Definition freeIndex (prefix : string) (w : World) : nat :=
  firstFree prefix (map id (transactions w)) (List.length (transactions w))
            (nextId w).

(** Modelled from the spec: [getNewId] is imported from [../data/mockData],
    which is not part of the sources at hand.  The specification calls the id
    "freshly generated", "unique across the collection" and "never reused even
    after deletion".  The model hands out the prefix followed by a numeral:
    the first numeral, from a counter that is never decremented, whose id no
    record of the collection carries; the counter then moves past it. *)
Definition getNewId (prefix : string) : M string :=
  fun w => mkOutcome (prefix ++ decimal (freeIndex prefix w))%string
             (mkWorld (transactions w) (loading w) (error w) (localStorage w)
                      (balanceCalls w) (toasts w) (S (freeIndex prefix w)))
             false.

(** ** The callbacks

    A callback closes over the [transactions] of the render that created it.
    [deleteTransaction] reads this rendered list, which it takes as its first
    argument, while the updater it passes to [setTransactions] works on the
    latest state.  The two queries are applied to the world as rendered. *)

(** [transactions.find(transaction => transaction.id === id)]. *)
Definition getTransaction (i : string) (w : World) : option Transaction :=
  find (fun transaction => id transaction =? i) (transactions w).

(** [transactions.filter(transaction => transaction.clientId === clientId)]. *)
Definition getClientTransactions (c : string) (w : World) : list Transaction :=
  filter (fun transaction => clientId transaction =? c) (transactions w).

(** [addTransaction(transaction)].  [now] is
    [format(new Date(), 'yyyy-MM-dd HH:mm:ss')] as read during the call. *)
Definition addTransaction (now : string) (transaction : NewTransaction.t) : M unit :=
  newId <- getNewId "t" ;;
  let newTransaction :=
    mkTransaction newId
                  (NewTransaction.clientId transaction)
                  (NewTransaction.accountId transaction)
                  (NewTransaction.type transaction)
                  (NewTransaction.amount transaction)
                  (NewTransaction.description transaction)
                  now
                  "completed"
                  (NewTransaction.currency transaction)
                  (NewTransaction.recipientAccountId transaction)
                  (NewTransaction.recipientClientId transaction) in
  setTransactions (fun prevTransactions => prevTransactions ++ [newTransaction]) ;;
  updateClientBalance (clientId newTransaction)
                      (accountId newTransaction)
                      (amount newTransaction)
                      (TransactionType_eqb (type newTransaction) deposit) ;;
  toast_success
    ((if TransactionType_eqb (type newTransaction) deposit then "Dépôt" else "Retrait")
       ++ " effectué avec succès!")%string.

(** [transferFunds(params)].  [now1] and [now2] are the two readings of the
    clock, one per record. *)
Definition transferFunds (now1 now2 : string) (params : TransferParams.t) : M unit :=
  let fromClientId := TransferParams.fromClientId params in
  let fromAccountId := TransferParams.fromAccountId params in
  let toClientId := TransferParams.toClientId params in
  let toAccountId := TransferParams.toAccountId params in
  let amount := TransferParams.amount params in
  let description := TransferParams.description params in
  let currency := TransferParams.currency params in
  id1 <- getNewId "t" ;;
  let withdrawalTransaction :=
    mkTransaction id1 fromClientId fromAccountId transfer amount
                  ("Transfert vers " ++ description)%string now1 "completed" currency
                  (Some toAccountId) (Some toClientId) in
  id2 <- getNewId "t" ;;
  let depositTransaction :=
    mkTransaction id2 toClientId toAccountId transfer amount
                  ("Transfert reçu de " ++ description)%string now2 "completed" currency
                  (Some fromAccountId) (Some fromClientId) in
  setTransactions (fun prevTransactions =>
                     prevTransactions ++ [withdrawalTransaction; depositTransaction]) ;;
  updateClientBalance fromClientId fromAccountId amount false ;;
  updateClientBalance toClientId toAccountId amount true ;;
  toast_success "Transfert effectué avec succès!".

(** [deleteTransaction(id)], created by the render that showed [rendered]. *)
Definition deleteTransaction (rendered : list Transaction) (i : string) : M unit :=
  match find (fun t => id t =? i) rendered with
  | Some transaction =>
      updateClientBalance (clientId transaction)
                          (accountId transaction)
                          (amount transaction)
                          (negb (TransactionType_eqb (type transaction) deposit)) ;;
      setTransactions (fun prevTransactions =>
                         filter (fun transaction => negb (id transaction =? i))
                                prevTransactions) ;;
      toast_success "Transaction supprimée avec succès!"
  | None => ret tt
  end.

(** ** The effects *)

(** The save effect, run after a render in which [transactions] or [loading]
    changed:
    [if (!loading && transactions.length > 0) localStorage.setItem(key, JSON.stringify(transactions))]. *)
Definition saveEffect : M unit :=
  fun w =>
    if negb (loading w) && (0 <? List.length (transactions w))%nat
    then setItem (JSON_stringify (transactions w)) w
    else ret tt w.

(** An event handler or timer callback runs to its end, React renders the
    new state, and the save effect runs if one of its dependencies changed. *)
Definition commit (handler : M unit) (w : World) : World :=
  let r := handler w in
  if depsChanged r then world (saveEffect (world r)) else world r.

(** The state at mount: [useState([])], [useState(true)], [useState(null)],
    given what the browser holds under the key and where [getNewId] stands. *)
Definition mounted (stored : option StoredText) (counter : nat) : World :=
  mkWorld [] true None stored [] [] counter.

(** The body of the timer callback of the load effect.  [mockTransactions] is
    the seed dataset of [../data/mockData].  The result is [None] when the
    stored text parses to a value that is not a [Transaction[]]: the component
    then holds a state outside its declared type. *)
Definition loadCallback (mockTransactions : list Transaction) (w : World)
  : option (M unit) :=
  let useMock := setTransactions (fun _ => mockTransactions) ;; setLoading false in
  match localStorage w with
  | Some storedTransactions =>
      if truthy storedTransactions then
        match JSON_parse storedTransactions with
        | Some v =>
            match asTransactionArray v with
            | Some ts => Some (setTransactions (fun _ => ts) ;; setLoading false)
            | None => None
            end
        | None =>
            Some (setError "Failed to load transactions" ;; setLoading false)
        end
      else Some useMock
  | None => Some useMock
  end.

Definition initialLoad (mockTransactions : list Transaction) (w : World)
  : option World :=
  option_map (fun handler => commit handler w) (loadCallback mockTransactions w).

(** ** The operations as events *)

Inductive Op : Type :=
  | Add (now : string) (transaction : NewTransaction.t)
  | Transfer (now1 now2 : string) (params : TransferParams.t)
  | Delete (i : string).

(** The call of one callback of the render that showed [rendered]. *)
Definition handler (rendered : list Transaction) (o : Op) : M unit :=
  match o with
  | Add now transaction => addTransaction now transaction
  | Transfer now1 now2 params => transferFunds now1 now2 params
  | Delete i => deleteTransaction rendered i
  end.

(** An event that calls one callback: the component renders afterwards. *)
Definition perform (o : Op) (w : World) : World :=
  commit (handler (transactions w) o) w.

(** A run of such events, with a render after each. *)
Definition performAll (ops : list Op) (w : World) : World :=
  fold_left (fun w' o => perform o w') ops w.

(** Several calls made by one event: all the callbacks are those of the same
    render, and the component renders once, after the last call. *)
Fixpoint handlers (rendered : list Transaction) (calls : list Op) : M unit :=
  match calls with
  | [] => ret tt
  | o :: rest => handler rendered o ;; handlers rendered rest
  end.

Definition performTogether (calls : list Op) (w : World) : World :=
  commit (handlers (transactions w) calls) w.


(** ** Notions used in the statements *)

(** The ids of the collection are behind the counter of [getNewId]: none of
    them is the prefix ['t'] followed by the numeral of the counter or of a
    later index. *)
Definition idsBehindCounter (w : World) : Prop :=
  forall (t : Transaction) (k : nat),
    In t (transactions w) -> (nextId w <= k)%nat ->
    id t <> ("t" ++ decimal k)%string.

(** The call that undoes the balance effect of a record. *)
Definition reversal (t : Transaction) : BalanceCall :=
  mkBalanceCall (clientId t) (accountId t) (amount t)
                (negb (TransactionType_eqb (type t) deposit)).

(** The records [deleteTransaction(i)] keeps. *)
Definition keeps (i : string) (t : Transaction) : bool := negb (id t =? i).

(** [Subsequence l full]: [l] is [full] with some elements left out, the
    others in their order. *)
Inductive Subsequence {A : Type} : list A -> list A -> Prop :=
  | Subsequence_nil : Subsequence [] []
  | Subsequence_keep (x : A) (l full : list A) :
      Subsequence l full -> Subsequence (x :: l) (x :: full)
  | Subsequence_drop (x : A) (l full : list A) :
      Subsequence l full -> Subsequence l (x :: full).

(** A query made from the interface: it reads the rendered state. *)
Definition read {A : Type} (query : World -> A) : M A :=
  fun w => mkOutcome (query w) w false.

(** The records of the collection that an operation does not delete. *)
Definition survivors (o : Op) (l : list Transaction) : list Transaction :=
  match o with
  | Delete i => filter (keeps i) l
  | _ => l
  end.

(** The number of records an operation creates. *)
Definition created (o : Op) : nat :=
  match o with
  | Add _ _ => 1
  | Transfer _ _ _ => 2
  | Delete _ => 0
  end.

(** The amount an operation is given by its caller. *)
Definition givenAmount (o : Op) : option Amount :=
  match o with
  | Add _ transaction => Some (NewTransaction.amount transaction)
  | Transfer _ _ params => Some (TransferParams.amount params)
  | Delete _ => None
  end.

Definition givenNonNegative (o : Op) : Prop :=
  match givenAmount o with
  | Some n => nonNegative n
  | None => True
  end.

Definition amountsNonNegative (l : list Transaction) : Prop :=
  Forall (fun t => nonNegative (amount t)) l.


(** An operation that changes the collection, as a test. *)
Definition changes (o : Op) (w : World) : bool :=
  match o with
  | Delete i =>
      match getTransaction i w with
      | Some _ => true
      | None => false
      end
  | _ => true
  end.



(** The id [addTransaction] gives its record, and [transferFunds] the
    sender's record, in the world [w]. *)
Definition firstId (w : World) : string := value (getNewId "t" w).

(** The id [transferFunds] gives the recipient's record. *)
Definition secondId (w : World) : string :=
  value (getNewId "t" (world (getNewId "t" w))).



(** [involves c o w]: the operation creates a record of client [c], or
    deletes by an id that a record of client [c] carries. *)
Definition involves (c : string) (o : Op) (w : World) : Prop :=
  match o with
  | Add _ transaction => NewTransaction.clientId transaction = c
  | Transfer _ _ params =>
      TransferParams.fromClientId params = c \/ TransferParams.toClientId params = c
  | Delete i => exists t, In t (transactions w) /\ id t = i /\ clientId t = c
  end.

(** A stored item from which a mount loads without setting the error cell,
    whatever the seed. *)
Definition loadsCleanly (stored : option StoredText) : Prop :=
  forall (mock : list Transaction) (counter : nat),
    exists w' : World,
      initialLoad mock (mounted stored counter) = Some w' /\ error w' = None.

(** The ids of the collection are pairwise different. *)
Definition uniqueIds (w : World) : Prop := NoDup (map id (transactions w)).

(** The load is over and, unless the collection is empty, the stored item is
    the text of the collection. *)
Definition snapshotCurrent (w : World) : Prop :=
  loading w = false
  /\ (transactions w <> [] ->
      localStorage w = Some (JSON_stringify (transactions w))).

(** What a record is after [JSON.stringify] and [JSON.parse]: an amount that
    is not a finite number has become [null]. *)
Definition reloadedAmount (a : Amount) : Amount :=
  match a with
  | Finite z => Finite z
  | _ => NullAmount
  end.

Definition reloaded (t : Transaction) : Transaction :=
  mkTransaction (id t) (clientId t) (accountId t) (type t)
                (reloadedAmount (amount t)) (description t) (date t) (status t)
                (currency t) (recipientAccountId t) (recipientClientId t).


(** ** What the effects leave alone *)

Section Frames.

Variable w : World.

Lemma saveEffect_transactions :
  transactions (world (saveEffect w)) = transactions w.
Proof. unfold saveEffect; destruct (negb _ && _); reflexivity. Qed.

Lemma saveEffect_loading :
  loading (world (saveEffect w)) = loading w.
Proof. unfold saveEffect; destruct (negb _ && _); reflexivity. Qed.

Lemma saveEffect_error :
  error (world (saveEffect w)) = error w.
Proof. unfold saveEffect; destruct (negb _ && _); reflexivity. Qed.

Lemma saveEffect_balanceCalls :
  balanceCalls (world (saveEffect w)) = balanceCalls w.
Proof. unfold saveEffect; destruct (negb _ && _); reflexivity. Qed.

Lemma saveEffect_toasts :
  toasts (world (saveEffect w)) = toasts w.
Proof. unfold saveEffect; destruct (negb _ && _); reflexivity. Qed.

Lemma saveEffect_nextId :
  nextId (world (saveEffect w)) = nextId w.
Proof. unfold saveEffect; destruct (negb _ && _); reflexivity. Qed.

End Frames.

Create Rewrite HintDb frames.
#[export] Hint Rewrite saveEffect_transactions saveEffect_loading saveEffect_error
  saveEffect_balanceCalls saveEffect_toasts saveEffect_nextId : frames.

(** [commit] applied to a handler that sets [transactions]. *)
Ltac run_handler :=
  unfold perform, commit, handler, addTransaction, transferFunds, bind;
  cbn [depsChanged world value getNewId setTransactions updateClientBalance
       toast_success orb];
  autorewrite with frames;
  cbn [transactions loading error localStorage balanceCalls toasts nextId].

(** ** transferFunds *)

(** C1. Every call of [transferFunds] appends exactly two records, the
    sender's first and the recipient's second, both of type [transfer] and
    status ["completed"], with the amount and currency of the call; each
    names the other side as its recipient; and [updateClientBalance] is called
    exactly twice, first to debit the sender's account and then to credit the
    recipient's. *)
Theorem transferFunds_appends_linked_pair
    (now1 now2 : string) (p : TransferParams.t) (w : World) :
  exists s r : Transaction,
    transactions (perform (Transfer now1 now2 p) w) = transactions w ++ [s; r]
    /\ type s = transfer /\ type r = transfer
    /\ status s = "completed" /\ status r = "completed"
    /\ amount s = TransferParams.amount p /\ amount r = TransferParams.amount p
    /\ currency s = TransferParams.currency p
    /\ currency r = TransferParams.currency p
    /\ clientId s = TransferParams.fromClientId p
    /\ accountId s = TransferParams.fromAccountId p
    /\ recipientClientId s = Some (TransferParams.toClientId p)
    /\ recipientAccountId s = Some (TransferParams.toAccountId p)
    /\ clientId r = TransferParams.toClientId p
    /\ accountId r = TransferParams.toAccountId p
    /\ recipientClientId r = Some (TransferParams.fromClientId p)
    /\ recipientAccountId r = Some (TransferParams.fromAccountId p)
    /\ balanceCalls (perform (Transfer now1 now2 p) w)
       = balanceCalls w
           ++ [ mkBalanceCall (TransferParams.fromClientId p)
                              (TransferParams.fromAccountId p)
                              (TransferParams.amount p) false;
                mkBalanceCall (TransferParams.toClientId p)
                              (TransferParams.toAccountId p)
                              (TransferParams.amount p) true ].
Proof.
  do 2 eexists.
  split.
  - run_handler. reflexivity.
  - cbn [type status amount currency clientId accountId recipientClientId
         recipientAccountId].
    repeat (split; [reflexivity|]).
    run_handler. now rewrite <- app_assoc.
Qed.

(** The transfer scenario of the specification: 50 from (C1, A1) to (C2, A2)
    with description "rent", on an empty collection after the load. *)
Example transferFunds_scenario :
  let w := mkWorld [] false None None [] [] 0 in
  let w' := perform (Transfer "2024-01-02 10:00:00" "2024-01-02 10:00:00"
                              (TransferParams.mk "C1" "A1" "C2" "A2" 50 "rent" "HTG")) w in
  transactions w'
  = [ mkTransaction "t0" "C1" "A1" transfer 50 "Transfert vers rent"
                    "2024-01-02 10:00:00" "completed" "HTG" (Some "A2") (Some "C2");
      mkTransaction "t1" "C2" "A2" transfer 50 "Transfert reçu de rent"
                    "2024-01-02 10:00:00" "completed" "HTG" (Some "A1") (Some "C1") ]
  /\ balanceCalls w'
     = [mkBalanceCall "C1" "A1" 50 false; mkBalanceCall "C2" "A2" 50 true]
  /\ toasts w' = ["Transfert effectué avec succès!"]
  /\ localStorage w' = Some (JSON_stringify (transactions w')).
Proof. repeat split. Qed.

(** ** Identifiers *)

Lemma decimal_inj (n m : nat) : decimal n = decimal m -> n = m.
Proof.
  unfold decimal; intros H.
  apply Unsigned.to_uint_inj.
  apply (f_equal NilEmpty.uint_of_string) in H.
  rewrite !NilEmpty.usu in H.
  congruence.
Qed.

Lemma append_cancel_l (p s s' : string) :
  (p ++ s = p ++ s')%string -> s = s'.
Proof.
  induction p as [|c p IH]; cbn; intros H; [exact H|].
  injection H as H. now apply IH.
Qed.

Lemma newId_inj (prefix : string) (n m : nat) :
  (prefix ++ decimal n = prefix ++ decimal m)%string -> n = m.
Proof. intros H. now apply decimal_inj, (append_cancel_l prefix). Qed.

Lemma newIds_NoDup (prefix : string) (k n : nat) :
  NoDup (map (fun j => (prefix ++ decimal j)%string) (seq k n)).
Proof.
  revert k. induction n as [|n IH]; intros k; cbn [seq map]; constructor.
  - intros Hin. apply in_map_iff in Hin as (j & Hj & Hin).
    apply newId_inj in Hj. apply in_seq in Hin. lia.
  - apply IH.
Qed.

(** Among [length used + 1] consecutive indices one gives an id that is not
    in [used]. *)
Lemma some_index_is_free (prefix : string) (used : list string) (k : nat) :
  exists j : nat,
    (k <= j <= k + List.length used)%nat
    /\ ~ In (prefix ++ decimal j)%string used.
Proof.
  destruct (Forall_Exists_dec
              (fun j => In (prefix ++ decimal j)%string used)
              (fun j => in_dec string_dec (prefix ++ decimal j)%string used)
              (seq k (S (List.length used)))) as [Hall|Hex].
  - exfalso.
    assert (Hle : (List.length (map (fun j => (prefix ++ decimal j)%string)
                                    (seq k (S (List.length used))))
                   <= List.length used)%nat).
    { apply NoDup_incl_length; [apply newIds_NoDup|].
      intros x Hx. apply in_map_iff in Hx as (j & <- & Hj).
      rewrite Forall_forall in Hall. now apply Hall. }
    rewrite length_map, length_seq in Hle. lia.
  - apply Exists_exists in Hex as (j & Hj & Hfree).
    exists j. split; [|exact Hfree]. apply in_seq in Hj. lia.
Qed.

Lemma firstFree_bounds (prefix : string) (used : list string) (fuel k : nat) :
  (k <= firstFree prefix used fuel k <= k + fuel)%nat.
Proof.
  revert k. induction fuel as [|fuel IH]; intros k; cbn [firstFree]; [lia|].
  destruct (existsb _ used); [|lia].
  specialize (IH (S k)). lia.
Qed.

Lemma firstFree_is_free (prefix : string) (used : list string) (fuel k : nat) :
  (exists j, (k <= j <= k + fuel)%nat /\ ~ In (prefix ++ decimal j)%string used) ->
  ~ In (prefix ++ decimal (firstFree prefix used fuel k))%string used.
Proof.
  revert k. induction fuel as [|fuel IH]; intros k (j & Hj & Hfree); cbn [firstFree].
  - now replace k with j by lia.
  - destruct (existsb _ used) eqn:E.
    + apply IH. exists j. split; [|exact Hfree].
      apply existsb_exists in E as (x & Hx & Heq).
      apply String.eqb_eq in Heq. subst x.
      assert (j <> k) by (intros ->; now apply Hfree).
      lia.
    + intros Hin.
      assert (Htrue : existsb (String.eqb (prefix ++ decimal k)) used = true).
      { apply existsb_exists. eexists. split; [exact Hin | apply String.eqb_refl]. }
      congruence.
Qed.

(** The id [getNewId] hands out is carried by no record of the collection, and
    its index is not behind the counter. *)
Lemma getNewId_is_new (prefix : string) (w : World) :
  forall t, In t (transactions w) ->
            id t <> (prefix ++ decimal (freeIndex prefix w))%string.
Proof.
  intros t Hin Heq.
  apply (firstFree_is_free prefix (map id (transactions w))
                           (List.length (transactions w)) (nextId w)).
  - rewrite <- (length_map id). apply some_index_is_free.
  - fold (freeIndex prefix w). rewrite <- Heq. now apply in_map.
Qed.

Lemma freeIndex_from_counter (prefix : string) (w : World) :
  (nextId w <= freeIndex prefix w)%nat.
Proof. apply firstFree_bounds. Qed.

(** When the ids are behind the counter, the counter's own index is free. *)
Lemma freeIndex_behind (w : World) :
  idsBehindCounter w -> freeIndex "t" w = nextId w.
Proof.
  intros Hw. unfold freeIndex.
  destruct (transactions w) as [|t0 l] eqn:E; [reflexivity|].
  cbn [List.length firstFree].
  destruct (existsb _ _) eqn:Ex; [|reflexivity].
  exfalso. apply existsb_exists in Ex as (x & Hx & Heq).
  apply String.eqb_eq in Heq. subst x.
  apply in_map_iff in Hx as (t & Ht & Hin).
  apply (Hw t (nextId w)); [now rewrite E | apply Nat.le_refl | exact Ht].
Qed.

Lemma idsBehindCounter_mounted (stored : option StoredText) (counter : nat) :
  idsBehindCounter (mounted stored counter).
Proof. intros t k []. Qed.

(** ** addTransaction *)

(** C3. [addTransaction] builds one record from its argument: the id is the
    one [getNewId] hands out, different from every id in the collection; the
    date is the clock's reading; the status is ["completed"]; the other fields
    are the argument's.  The record is appended at the end of the collection,
    and [updateClientBalance] is called exactly once, crediting exactly when
    the type is [deposit].  Nothing about the argument is checked: the
    statement holds for every argument, and the error cell is left alone. *)
Theorem addTransaction_appends_one_completed_record
    (now : string) (tr : NewTransaction.t) (w : World) :
  exists t : Transaction,
    transactions (perform (Add now tr) w) = transactions w ++ [t]
    /\ (forall t', In t' (transactions w) -> id t' <> id t)
    /\ id t = value (getNewId "t" w)
    /\ date t = now
    /\ status t = "completed"
    /\ clientId t = NewTransaction.clientId tr
    /\ accountId t = NewTransaction.accountId tr
    /\ type t = NewTransaction.type tr
    /\ amount t = NewTransaction.amount tr
    /\ description t = NewTransaction.description tr
    /\ currency t = NewTransaction.currency tr
    /\ balanceCalls (perform (Add now tr) w)
       = balanceCalls w
           ++ [ mkBalanceCall (NewTransaction.clientId tr)
                              (NewTransaction.accountId tr)
                              (NewTransaction.amount tr)
                              (TransactionType_eqb (NewTransaction.type tr) deposit) ]
    /\ error (perform (Add now tr) w) = error w.
Proof.
  eexists. split; [run_handler; reflexivity|].
  cbn [id date status clientId accountId type amount description currency].
  split; [apply getNewId_is_new|].
  repeat (split; [reflexivity|]).
  split; run_handler; reflexivity.
Qed.

Lemma addTransaction_witness :
  let w := mkWorld [mkTransaction "t0" "c1" "a1" deposit 100 "salary"
                                  "2024-01-01 09:00:00" "completed" "HTG" None None]
                   false None None [] [] 0 in
  let tr := NewTransaction.mk "c1" "a1" withdrawal (-5) "cash" "HTG" None None in
  exists t : Transaction,
    transactions (perform (Add "2024-01-02 10:00:00" tr) w) = transactions w ++ [t]
    /\ id t = "t1" /\ amount t = (-5)%Z /\ status t = "completed".
Proof.
  intros w tr.
  destruct (addTransaction_appends_one_completed_record "2024-01-02 10:00:00" tr w)
    as (t & Happ & _ & Hid & _ & Hst & _ & _ & _ & Ham & _).
  exists t. repeat split; assumption.
Defined.

(** The deposit scenario of the specification, followed by the deletion of
    the record it created. *)
Example addTransaction_then_deleteTransaction_scenario :
  let w := mkWorld [] false None None [] [] 0 in
  let w1 := perform (Add "2024-01-02 10:00:00"
                         (NewTransaction.mk "C1" "A1" deposit 100 "salary" "HTG"
                                            None None)) w in
  let w2 := perform (Delete "t0") w1 in
  transactions w1
  = [ mkTransaction "t0" "C1" "A1" deposit 100 "salary" "2024-01-02 10:00:00"
                    "completed" "HTG" None None ]
  /\ balanceCalls w1 = [mkBalanceCall "C1" "A1" 100 true]
  /\ toasts w1 = ["Dépôt effectué avec succès!"]
  /\ transactions w2 = []
  /\ balanceCalls w2
     = [mkBalanceCall "C1" "A1" 100 true; mkBalanceCall "C1" "A1" 100 false]
  /\ toasts w2 = ["Dépôt effectué avec succès!"; "Transaction supprimée avec succès!"].
Proof. repeat split. Qed.

(** ** deleteTransaction *)

Lemma perform_Delete_found (i : string) (w : World) (t : Transaction) :
  getTransaction i w = Some t ->
  perform (Delete i) w
  = world (saveEffect
             (mkWorld (filter (keeps i) (transactions w)) (loading w) (error w)
                      (localStorage w) (balanceCalls w ++ [reversal t])
                      (toasts w ++ ["Transaction supprimée avec succès!"])
                      (nextId w))).
Proof.
  unfold getTransaction, perform, commit, handler, deleteTransaction.
  intros ->. reflexivity.
Qed.

Lemma perform_Delete_missing (i : string) (w : World) :
  getTransaction i w = None -> perform (Delete i) w = w.
Proof.
  unfold getTransaction, perform, commit, handler, deleteTransaction.
  intros ->. reflexivity.
Qed.

Lemma getTransaction_Some (i : string) (w : World) (t : Transaction) :
  getTransaction i w = Some t -> In t (transactions w) /\ id t = i.
Proof.
  unfold getTransaction; intros H.
  apply find_some in H as [Hin Heq].
  split; [exact Hin | now apply String.eqb_eq].
Qed.

Lemma getTransaction_None (i : string) (w : World) :
  getTransaction i w = None <-> (forall t, In t (transactions w) -> id t <> i).
Proof.
  unfold getTransaction; split.
  - intros H t Hin. apply String.eqb_neq. exact (find_none _ _ H t Hin).
  - intros H. destruct (find _ _) as [t|] eqn:E; [|reflexivity].
    apply find_some in E as [Hin Heq].
    apply String.eqb_eq in Heq. now elim (H t Hin).
Qed.

Lemma getTransaction_present (i : string) (w : World) :
  (exists x, In x (transactions w) /\ id x = i) ->
  exists t, getTransaction i w = Some t.
Proof.
  intros (x & Hin & Hx).
  destruct (getTransaction i w) as [t|] eqn:E; [now exists t|].
  now elim (proj1 (getTransaction_None i w) E x Hin).
Qed.

Lemma In_filter_keeps (i : string) (l : list Transaction) (x : Transaction) :
  In x (filter (keeps i) l) <-> In x l /\ id x <> i.
Proof.
  rewrite filter_In. unfold keeps. rewrite negb_true_iff, String.eqb_neq.
  reflexivity.
Qed.

Lemma isCredit_reversal (t : Transaction) :
  isCredit (reversal t) = true <-> type t <> deposit.
Proof. cbn. destruct (type t); cbn; split; congruence. Qed.

(** C2. When some record of the collection has the id, [deleteTransaction]
    calls [updateClientBalance] exactly once, with the client, account and
    amount of the record the lookup finds and with [isCredit] true exactly
    when that record is not a deposit, and the record is gone from the
    collection afterwards, the other records staying. *)
Theorem deleteTransaction_reverses_then_removes (i : string) (w : World) :
  (exists x, In x (transactions w) /\ id x = i) ->
  exists (t : Transaction) (call : BalanceCall),
    getTransaction i w = Some t
    /\ In t (transactions w) /\ id t = i
    /\ balanceCalls (perform (Delete i) w) = balanceCalls w ++ [call]
    /\ callClientId call = clientId t
    /\ callAccountId call = accountId t
    /\ callAmount call = amount t
    /\ (isCredit call = true <-> type t <> deposit)
    /\ (type t = deposit -> isCredit call = false)
    /\ (type t = withdrawal \/ type t = transfer -> isCredit call = true)
    /\ ~ In t (transactions (perform (Delete i) w))
    /\ (forall x, In x (transactions (perform (Delete i) w))
                  <-> In x (transactions w) /\ id x <> i).
Proof.
  intros Hpresent.
  destruct (getTransaction_present i w Hpresent) as [t Ht].
  destruct (getTransaction_Some i w t Ht) as [Hin Hid].
  exists t, (reversal t).
  rewrite (perform_Delete_found i w t Ht).
  autorewrite with frames. cbn [transactions balanceCalls].
  repeat (split; [first [assumption | reflexivity]|]).
  split; [apply isCredit_reversal|].
  split; [cbn; now intros ->|].
  split; [cbn; now intros [-> | ->]|].
  split.
  - rewrite In_filter_keeps. tauto.
  - intros x. apply In_filter_keeps.
Qed.

Lemma deleteTransaction_reverses_witness :
  let w := mkWorld [mkTransaction "t0" "C1" "A1" deposit 100 "salary"
                                  "2024-01-01 09:00:00" "completed" "HTG" None None]
                   false None None [] [] 1 in
  (exists x, In x (transactions w) /\ id x = "t0")
  /\ balanceCalls (perform (Delete "t0") w) = [mkBalanceCall "C1" "A1" 100 false]
  /\ transactions (perform (Delete "t0") w) = [].
Proof.
  intros w.
  assert (Hp : exists x, In x (transactions w) /\ id x = "t0").
  { eexists; split; [left; reflexivity | reflexivity]. }
  split; [exact Hp|].
  destruct (deleteTransaction_reverses_then_removes "t0" w Hp)
    as (t & call & Ht & _ & _ & Hcalls & Hc & Ha & Hn & _ & Hdep & _ & _ & Hrest).
  cbn in Ht. injection Ht as <-.
  split.
  - rewrite Hcalls. destruct call as [c a n b]; cbn in *.
    now rewrite Hc, Ha, Hn, (Hdep eq_refl).
  - destruct (transactions (perform (Delete "t0") w)) as [|x l]; [reflexivity|].
    exfalso.
    destruct (proj1 (Hrest x) (or_introl eq_refl)) as [[<-|[]] Hne].
    now apply Hne.
Defined.


Lemma handlers_then_absent_Delete
    (rendered : list Transaction) (i : string) (calls : list Op) (w : World) :
  find (fun t => id t =? i) rendered = None ->
  handlers rendered (calls ++ [Delete i]) w = handlers rendered calls w.
Proof.
  intros Hnone. revert w.
  induction calls as [|o calls IH]; intros w; cbn [app handlers].
  - unfold bind, handler, deleteTransaction. rewrite Hnone. reflexivity.
  - unfold bind. cbv zeta. now rewrite IH.
Qed.



(** C4, as stated, fails: two deletions of the same id called by one event,
    with no render between them, both find the record in the rendered
    collection, so that the reversal call is made twice and two toasts are
    shown. *)
Lemma two_deletions_in_one_event_reverse_twice :
  let t0 := mkTransaction "t0" "C1" "A1" withdrawal 40 "cash"
                          "2024-01-01 09:00:00" "completed" "HTG" None None in
  let w := mkWorld [t0] false None (Some (JSON_stringify [t0])) [] [] 1 in
  transactions (performTogether [Delete "t0"; Delete "t0"] w) = []
  /\ balanceCalls (performTogether [Delete "t0"; Delete "t0"] w)
     = [mkBalanceCall "C1" "A1" 40 true; mkBalanceCall "C1" "A1" 40 true]
  /\ toasts (performTogether [Delete "t0"; Delete "t0"] w)
     = ["Transaction supprimée avec succès!"; "Transaction supprimée avec succès!"].
Proof. repeat split. Qed.

(** C10. When several records carry the id, the first of them in insertion
    order is the one [getTransaction] returns and the one whose reversal
    [deleteTransaction] sends, once; and [deleteTransaction] removes all of
    them, so at least two records leave the collection. *)
Theorem duplicate_ids_first_match_wins
    (i : string) (w : World) (pre post : list Transaction) (t u : Transaction) :
  transactions w = pre ++ t :: post ->
  (forall x, In x pre -> id x <> i) ->
  id t = i ->
  In u post -> id u = i ->
  getTransaction i w = Some t
  /\ balanceCalls (perform (Delete i) w) = balanceCalls w ++ [reversal t]
  /\ transactions (perform (Delete i) w) = pre ++ filter (keeps i) post
  /\ (forall x, In x (transactions (perform (Delete i) w)) -> id x <> i)
  /\ (List.length (transactions (perform (Delete i) w)) + 2
      <= List.length (transactions w))%nat.
Proof.
  intros Hsplit Hpre Ht Hu Hui.
  assert (Hfind : getTransaction i w = Some t).
  { unfold getTransaction. rewrite Hsplit. clear Hsplit.
    induction pre as [|x pre IH]; cbn.
    - now rewrite (proj2 (String.eqb_eq _ _) Ht).
    - rewrite (proj2 (String.eqb_neq _ _) (Hpre x (or_introl eq_refl))).
      apply IH. intros y Hy. apply Hpre. now right. }
  assert (Hkeep : filter (keeps i) pre = pre).
  { clear Hsplit Hfind. induction pre as [|x pre IH]; cbn; [reflexivity|].
    unfold keeps at 1.
    rewrite (proj2 (String.eqb_neq _ _) (Hpre x (or_introl eq_refl))). cbn.
    f_equal. apply IH. intros y Hy. apply Hpre. now right. }
  assert (Hshort : (List.length (filter (keeps i) post) < List.length post)%nat).
  { clear - Hu Hui. induction post as [|x post IH]; [destruct Hu|].
    pose proof (filter_length_le (keeps i) post) as Hle.
    cbn [filter]. destruct Hu as [->|Hu].
    - unfold keeps at 1. rewrite (proj2 (String.eqb_eq _ _) Hui). cbn. lia.
    - specialize (IH Hu). destruct (keeps i x); cbn; lia. }
  split; [exact Hfind|].
  rewrite (perform_Delete_found i w t Hfind).
  autorewrite with frames. cbn [transactions balanceCalls].
  split; [reflexivity|].
  assert (Hdrop : keeps i t = false).
  { unfold keeps. now rewrite (proj2 (String.eqb_eq _ _) Ht). }
  rewrite Hsplit, filter_app, Hkeep. cbn [filter]. rewrite Hdrop.
  split; [reflexivity|].
  split.
  - intros x Hx. apply in_app_or in Hx as [Hx|Hx].
    + now apply Hpre.
    + now apply In_filter_keeps in Hx.
  - rewrite !length_app. cbn [List.length]. lia.
Qed.

Lemma duplicate_ids_witness :
  let a := mkTransaction "t1" "C1" "A1" deposit 10 "first"
                         "2024-01-01 09:00:00" "completed" "HTG" None None in
  let b := mkTransaction "t2" "C2" "A2" deposit 20 "other"
                         "2024-01-01 09:05:00" "completed" "HTG" None None in
  let c := mkTransaction "t1" "C3" "A3" withdrawal 30 "second"
                         "2024-01-01 09:10:00" "completed" "HTG" None None in
  let w := mkWorld [b; a; c] false None None [] [] 3 in
  getTransaction "t1" w = Some a
  /\ balanceCalls (perform (Delete "t1") w) = [mkBalanceCall "C1" "A1" 10 false]
  /\ transactions (perform (Delete "t1") w) = [b].
Proof.
  intros a b c w.
  assert (Hpre : forall x, In x [b] -> id x <> "t1").
  { intros x [<-|[]]. discriminate. }
  destruct (duplicate_ids_first_match_wins "t1" w [b] [c] a c eq_refl Hpre eq_refl
              (or_introl eq_refl) eq_refl)
    as (Hget & Hcalls & Htx & _ & _).
  repeat split; assumption.
Defined.

(** ** Subsequences *)

Section Subsequences.

Context {A : Type}.

Lemma Subsequence_refl (l : list A) : Subsequence l l.
Proof. induction l; now constructor. Qed.

Lemma Subsequence_filter (f : A -> bool) (full : list A) :
  Subsequence (filter f full) full.
Proof.
  induction full as [|x full IH]; cbn; [constructor|].
  destruct (f x); now constructor.
Qed.

(** [filter f full] is the longest subsequence of [full] made of elements
    that pass [f]: every other one is a subsequence of it. *)
Lemma Subsequence_filter_greatest (f : A -> bool) (l full : list A) :
  Subsequence l full ->
  (forall x, In x l -> f x = true) ->
  Subsequence l (filter f full).
Proof.
  induction 1 as [|x l full Hsub IH|x l full Hsub IH]; intros Hall; cbn.
  - constructor.
  - rewrite (Hall x (or_introl eq_refl)). constructor.
    apply IH. intros y Hy. apply Hall. now right.
  - destruct (f x); [constructor|]; now apply IH.
Qed.

Lemma filter_all_false (f : A -> bool) (full : list A) :
  (forall x, In x full -> f x = false) -> filter f full = [].
Proof.
  induction full as [|x full IH]; intros Hall; cbn; [reflexivity|].
  rewrite (Hall x (or_introl eq_refl)). apply IH.
  intros y Hy. apply Hall. now right.
Qed.

Lemma filter_all_true (f : A -> bool) (full : list A) :
  (forall x, In x full -> f x = true) -> filter f full = full.
Proof.
  induction full as [|x full IH]; intros Hall; cbn; [reflexivity|].
  rewrite (Hall x (or_introl eq_refl)). f_equal. apply IH.
  intros y Hy. apply Hall. now right.
Qed.

End Subsequences.

(** ** The queries *)

(** C5. [getClientTransactions(c)] is the subsequence of the collection made
    of the records of client [c]: it is a subsequence, its members are the
    records of the collection whose [clientId] is [c], and every subsequence
    of the collection made of such records is a subsequence of it; it is empty
    when no record is of client [c].  Asking twice in a row gives the same
    answer twice and changes nothing.  [getTransaction(i)] returns a record of
    the collection with that id when there is one, and the absent value
    otherwise. *)
Theorem queries_answer_from_the_collection (c i : string) (w : World) :
  Subsequence (getClientTransactions c w) (transactions w)
  /\ (forall t, In t (getClientTransactions c w)
                <-> In t (transactions w) /\ clientId t = c)
  /\ (forall l, Subsequence l (transactions w) ->
                (forall t, In t l -> clientId t = c) ->
                Subsequence l (getClientTransactions c w))
  /\ ((forall t, In t (transactions w) -> clientId t <> c) ->
      getClientTransactions c w = [])
  /\ (let twice := (first <- read (getClientTransactions c) ;;
                    second <- read (getClientTransactions c) ;;
                    ret (first, second)) w in
      fst (value twice) = snd (value twice)
      /\ fst (value twice) = getClientTransactions c w
      /\ world twice = w)
  /\ ((exists t, In t (transactions w) /\ id t = i) ->
      exists t, getTransaction i w = Some t /\ In t (transactions w) /\ id t = i)
  /\ ((forall t, In t (transactions w) -> id t <> i) -> getTransaction i w = None).
Proof.
  unfold getClientTransactions.
  split; [apply Subsequence_filter|].
  split.
  { intros t. rewrite filter_In, String.eqb_eq. reflexivity. }
  split.
  { intros l Hsub Hall. apply Subsequence_filter_greatest; [exact Hsub|].
    intros t Ht. apply String.eqb_eq. now apply Hall. }
  split.
  { intros Hnone. apply filter_all_false.
    intros t Ht. apply String.eqb_neq. now apply Hnone. }
  split; [cbn; repeat split|].
  split.
  - intros Hsome. destruct (getTransaction_present i w Hsome) as [t Ht].
    exists t. split; [exact Ht|]. now apply getTransaction_Some.
  - apply getTransaction_None.
Qed.

Lemma queries_witness :
  let a := mkTransaction "t1" "C1" "A1" deposit 10 "first"
                         "2024-01-01 09:00:00" "completed" "HTG" None None in
  let b := mkTransaction "t2" "C2" "A2" deposit 20 "other"
                         "2024-01-01 09:05:00" "completed" "HTG" None None in
  let c := mkTransaction "t3" "C1" "A3" withdrawal 30 "second"
                         "2024-01-01 09:10:00" "completed" "HTG" None None in
  let w := mkWorld [a; b; c] false None None [] [] 4 in
  getClientTransactions "C1" w = [a; c]
  /\ Subsequence [a; c] (getClientTransactions "C1" w)
  /\ getClientTransactions "C9" w = []
  /\ (exists t, getTransaction "t2" w = Some t /\ In t (transactions w) /\ id t = "t2")
  /\ getTransaction "t9" w = None.
Proof.
  intros a b c w.
  destruct (queries_answer_from_the_collection "C1" "t2" w)
    as (_ & _ & Hgreatest & _ & _ & Hfound & _).
  destruct (queries_answer_from_the_collection "C9" "t9" w)
    as (_ & _ & _ & Hempty & _ & _ & Hmissing).
  split; [reflexivity|].
  split.
  { apply Hgreatest.
    - apply Subsequence_keep, Subsequence_drop, Subsequence_refl.
    - intros t [<-|[<-|[]]]; reflexivity. }
  split.
  { apply Hempty. intros t [<-|[<-|[<-|[]]]]; discriminate. }
  split.
  { apply Hfound. exists b. split; [right; left; reflexivity | reflexivity]. }
  apply Hmissing. intros t [<-|[<-|[<-|[]]]]; discriminate.
Defined.

(** ** The collection under the operations *)

Lemma transactions_perform (o : Op) (w : World) :
  exists added : list Transaction,
    transactions (perform o w) = survivors o (transactions w) ++ added
    /\ List.length added = created o.
Proof.
  destruct o as [now tr | now1 now2 p | i]; cbn [survivors created].
  - eexists. split; [run_handler; reflexivity | reflexivity].
  - eexists. split; [run_handler; reflexivity | reflexivity].
  - exists []. split; [|reflexivity]. rewrite app_nil_r.
    destruct (getTransaction i w) as [t|] eqn:E.
    + rewrite (perform_Delete_found i w t E). now autorewrite with frames.
    + rewrite (perform_Delete_missing i w E). symmetry.
      apply filter_all_true. intros x Hx. unfold keeps.
      apply negb_true_iff, String.eqb_neq.
      now apply (proj1 (getTransaction_None i w) E).
Qed.

(** C9. After any operation the collection is the old collection, without
    the records the operation deletes and otherwise record for record and in
    the same order, followed by the records the operation creates: one for
    [addTransaction], two for [transferFunds], none for [deleteTransaction].
    [addTransaction] and [transferFunds] delete nothing, and
    [deleteTransaction] keeps, as they were, the records with another id. *)
Theorem operations_keep_the_collection_append_ordered (o : Op) (w : World) :
  exists added : list Transaction,
    transactions (perform o w) = survivors o (transactions w) ++ added
    /\ List.length added = created o
    /\ Subsequence (survivors o (transactions w)) (transactions w)
    /\ match o with
       | Delete i =>
           forall t, In t (survivors o (transactions w))
                     <-> In t (transactions w) /\ id t <> i
       | _ => survivors o (transactions w) = transactions w
       end.
Proof.
  destruct (transactions_perform o w) as (added & Heq & Hlen).
  exists added. split; [exact Heq|]. split; [exact Hlen|].
  destruct o as [now tr | now1 now2 p | i]; cbn [survivors].
  - split; [apply Subsequence_refl | reflexivity].
  - split; [apply Subsequence_refl | reflexivity].
  - split; [apply Subsequence_filter | intros t; apply In_filter_keeps].
Qed.

(** ** Amounts *)

Lemma amountsNonNegative_perform (o : Op) (w : World) :
  amountsNonNegative (transactions w) ->
  givenNonNegative o ->
  amountsNonNegative (transactions (perform o w)).
Proof.
  unfold amountsNonNegative, givenNonNegative. intros Hold Hgiven.
  destruct o as [now tr | now1 now2 p | i]; cbn in Hgiven.
  - run_handler. apply Forall_app. split; [exact Hold|].
    repeat constructor. exact Hgiven.
  - run_handler. apply Forall_app. split; [exact Hold|].
    repeat constructor; exact Hgiven.
  - destruct (transactions_perform (Delete i) w) as (added & -> & Hlen).
    destruct added; [|discriminate]. rewrite app_nil_r. cbn [survivors].
    rewrite Forall_forall in *. intros t Ht.
    apply In_filter_keeps in Ht. now apply Hold.
Qed.

(** C7, as the code has it.  No operation looks at the sign of an amount: a
    record carries the amount its caller gave.  So the amounts of the
    collection are non-negative after any sequence of operations that starts
    from a collection of non-negative amounts and in which every
    [addTransaction] and [transferFunds] was given a non-negative amount. *)
Theorem amounts_stay_non_negative_when_given_so (ops : list Op) (w : World) :
  amountsNonNegative (transactions w) ->
  Forall givenNonNegative ops ->
  amountsNonNegative (transactions (performAll ops w)).
Proof.
  revert w. induction ops as [|o ops IH]; intros w Hw Hops; cbn.
  - exact Hw.
  - inversion Hops as [|o' ops' Ho Hrest]; subst.
    apply IH; [|exact Hrest].
    now apply amountsNonNegative_perform.
Qed.

Lemma amounts_stay_non_negative_witness :
  let seed := mkTransaction "t0" "C1" "A1" deposit 100 "salary"
                            "2024-01-01 09:00:00" "completed" "HTG" None None in
  let w := mkWorld [seed] false None None [] [] 1 in
  let ops := [ Add "2024-01-02 10:00:00"
                   (NewTransaction.mk "C1" "A1" withdrawal 30 "cash" "HTG" None None);
               Transfer "2024-01-02 10:01:00" "2024-01-02 10:01:00"
                        (TransferParams.mk "C1" "A1" "C2" "A2" 50 "rent" "HTG");
               Delete "t0" ] in
  amountsNonNegative (transactions w)
  /\ Forall givenNonNegative ops
  /\ amountsNonNegative (transactions (performAll ops w)).
Proof.
  intros seed w ops.
  assert (Hw : amountsNonNegative (transactions w)).
  { repeat constructor. cbn. lia. }
  assert (Hops : Forall givenNonNegative ops).
  { repeat constructor; unfold givenNonNegative; cbn; lia. }
  split; [exact Hw|]. split; [exact Hops|].
  exact (amounts_stay_non_negative_when_given_so ops w Hw Hops).
Defined.

(** C7, as stated, fails: after the seed is loaded, [addTransaction] with
    amount [-5] puts a record of amount [-5] in the collection. *)
Lemma negative_amount_enters_the_collection :
  let tr := NewTransaction.mk "C1" "A1" withdrawal (-5) "cash" "HTG" None None in
  exists w0 : World,
    initialLoad [] (mounted None 0) = Some w0
    /\ exists t : Transaction,
         In t (transactions (performAll [Add "2024-01-02 10:00:00" tr] w0))
         /\ amount t = Finite (-5)
         /\ ~ nonNegative (amount t).
Proof.
  intros tr. eexists. split; [reflexivity|].
  eexists. split; [left; reflexivity|].
  split; [reflexivity|]. cbn. lia.
Qed.

(** ** The snapshot *)

Lemma typeOfName_typeName (k : TransactionType) : typeOfName (typeName k) = Some k.
Proof. now destruct k. Qed.

Lemma asTransaction_stringifyTransaction (t : Transaction) :
  asTransaction (stringifyTransaction t) = Some (reloaded t).
Proof.
  destruct t as [i c a k n d dt st cur [ra|] [rc|]];
    unfold asTransaction, stringifyTransaction, reloaded;
    cbn -[typeOfName typeName]; rewrite typeOfName_typeName;
    destruct n; reflexivity.
Qed.

Lemma asTransactions_stringify (ts : list Transaction) :
  asTransactions (map stringifyTransaction ts) = Some (map reloaded ts).
Proof.
  induction ts as [|t ts IH]; cbn [map asTransactions]; [reflexivity|].
  rewrite asTransaction_stringifyTransaction, IH. reflexivity.
Qed.




(** A mount that finds the snapshot of [ts] ends with [ts] as its collection,
    up to the amounts that are not finite numbers. *)
Lemma initialLoad_of_snapshot
    (mock ts : list Transaction) (counter : nat) :
  exists w' : World,
    initialLoad mock (mounted (Some (JSON_stringify ts)) counter) = Some w'
    /\ transactions w' = map reloaded ts
    /\ loading w' = false
    /\ error w' = None.
Proof.
  unfold initialLoad, loadCallback.
  cbn [localStorage mounted JSON_stringify truthy JSON_parse asTransactionArray].
  rewrite asTransactions_stringify. cbn [option_map].
  eexists. split; [reflexivity|].
  unfold commit, bind.
  cbn [depsChanged world value setTransactions setLoading transactions loading
       Bool.eqb negb orb].
  autorewrite with frames. cbn. repeat split.
Qed.





(** ** The failed load *)

Lemma error_perform (o : Op) (w : World) : error (perform o w) = error w.
Proof.
  destruct o as [now tr | now1 now2 p | i].
  - run_handler. reflexivity.
  - run_handler. reflexivity.
  - destruct (getTransaction i w) as [t|] eqn:E.
    + rewrite (perform_Delete_found i w t E). now autorewrite with frames.
    + now rewrite (perform_Delete_missing i w E).
Qed.

(** C8, as the code has it.  When the stored text does not parse, the load
    sets the error cell to its message and clears [loading]; the collection is
    what it was before the load.  No query looks at the error cell:
    [getTransaction] and [getClientTransactions] answer from that collection
    as they always do.  No operation clears the error cell afterwards. *)
Theorem failed_load_flags_error_and_queries_go_on
    (mock : list Transaction) (w : World) (text : StoredText) :
  localStorage w = Some text ->
  truthy text = true ->
  JSON_parse text = None ->
  exists w' : World,
    initialLoad mock w = Some w'
    /\ error w' = Some "Failed to load transactions"
    /\ loading w' = false
    /\ transactions w' = transactions w
    /\ (forall i, getTransaction i w' = getTransaction i w)
    /\ (forall c, getClientTransactions c w' = getClientTransactions c w)
    /\ (forall t, In t (transactions w) ->
          exists t', getTransaction (id t) w' = Some t')
    /\ (forall o, error (perform o w') = Some "Failed to load transactions").
Proof.
  intros Hstored Htruthy Hparse.
  unfold initialLoad, loadCallback. rewrite Hstored, Htruthy, Hparse.
  cbn [option_map]. eexists. split; [reflexivity|].
  unfold commit, bind.
  cbn [depsChanged world value setError setLoading transactions loading orb].
  assert (Hframe :
    forall w1, transactions w1 = transactions w ->
               error w1 = Some "Failed to load transactions" ->
               loading w1 = false ->
               error w1 = Some "Failed to load transactions"
               /\ loading w1 = false
               /\ transactions w1 = transactions w
               /\ (forall i, getTransaction i w1 = getTransaction i w)
               /\ (forall c, getClientTransactions c w1 = getClientTransactions c w)
               /\ (forall t, In t (transactions w) ->
                     exists t', getTransaction (id t) w1 = Some t')
               /\ (forall o, error (perform o w1) = Some "Failed to load transactions")).
  { intros w1 Htx Herr Hload.
    repeat (split; [assumption|]).
    split; [intros i; unfold getTransaction; now rewrite Htx|].
    split; [intros c; unfold getClientTransactions; now rewrite Htx|].
    split.
    - intros t Hin. apply getTransaction_present. exists t.
      rewrite Htx. now split.
    - intros o. now rewrite error_perform. }
  destruct (negb (Bool.eqb (loading w) false));
    apply Hframe; autorewrite with frames; reflexivity.
Qed.

Lemma failed_load_witness :
  let seed := mkTransaction "t0" "C1" "A1" deposit 100 "salary"
                            "2024-01-01 09:00:00" "completed" "HTG" None None in
  let w := mounted (Some Malformed) 1 in
  localStorage w = Some Malformed
  /\ truthy Malformed = true
  /\ JSON_parse Malformed = None
  /\ exists w' : World,
       initialLoad [seed] w = Some w'
       /\ error w' = Some "Failed to load transactions"
       /\ loading w' = false
       /\ transactions w' = [].
Proof.
  intros seed w.
  split; [reflexivity|]. split; [reflexivity|]. split; [reflexivity|].
  destruct (failed_load_flags_error_and_queries_go_on [seed] w Malformed
              eq_refl eq_refl eq_refl)
    as (w' & Hload & Herr & Hloading & Htx & _).
  exists w'. repeat split; assumption.
Defined.

(** C8, as stated, fails: after a load that failed the queries answer, from
    the empty collection at first and, once a record has been added, from the
    collection that holds this record alone, the error cell being set all
    along. *)
Lemma queries_answer_after_a_failed_load :
  let seed := mkTransaction "t0" "C1" "A1" deposit 100 "salary"
                            "2024-01-01 09:00:00" "completed" "HTG" None None in
  let tr := NewTransaction.mk "C1" "A1" deposit 7 "tip" "HTG" None None in
  let added := mkTransaction "t1" "C1" "A1" deposit 7 "tip"
                             "2024-01-02 10:00:00" "completed" "HTG" None None in
  exists w' : World,
    initialLoad [seed] (mounted (Some Malformed) 1) = Some w'
    /\ error w' = Some "Failed to load transactions"
    /\ getTransaction "t0" w' = None
    /\ getClientTransactions "C1" w' = []
    /\ error (perform (Add "2024-01-02 10:00:00" tr) w')
       = Some "Failed to load transactions"
    /\ getTransaction "t1" (perform (Add "2024-01-02 10:00:00" tr) w') = Some added
    /\ getClientTransactions "C1" (perform (Add "2024-01-02 10:00:00" tr) w')
       = [added].
Proof.
  intros seed tr added. eexists.
  split; [reflexivity|].
  repeat split.
Qed.

(** ** The counter stays ahead of the collection *)

Lemma nextId_perform_Delete (i : string) (w : World) :
  nextId (perform (Delete i) w) = nextId w.
Proof.
  destruct (getTransaction i w) as [t|] eqn:E.
  - rewrite (perform_Delete_found i w t E). now autorewrite with frames.
  - now rewrite (perform_Delete_missing i w E).
Qed.

(** [idsBehindCounter] is kept by every operation: an id handed out is never
    handed out again, whatever is deleted in between. *)
Lemma idsBehindCounter_perform (o : Op) (w : World) :
  idsBehindCounter w -> idsBehindCounter (perform o w).
Proof.
  unfold idsBehindCounter. intros Hw.
  pose proof (freeIndex_from_counter "t" w) as H1.
  pose proof (freeIndex_from_counter "t" (world (getNewId "t" w))) as H2.
  cbn [world getNewId nextId] in H2.
  destruct o as [now tr | now1 now2 p | i].
  - run_handler. intros t k Hin Hk.
    apply in_app_or in Hin as [Hin|[<-|[]]].
    + apply Hw; [exact Hin | lia].
    + cbn [id]. intros Heq. apply newId_inj in Heq. lia.
  - run_handler. intros t k Hin Hk.
    apply in_app_or in Hin as [Hin|[<-|[<-|[]]]].
    + apply Hw; [exact Hin | lia].
    + cbn [id]. intros Heq. apply newId_inj in Heq. lia.
    + cbn [id]. intros Heq. apply newId_inj in Heq. lia.
  - rewrite nextId_perform_Delete. intros t k Hin Hk.
    destruct (transactions_perform (Delete i) w) as (added & Heq & Hlen).
    destruct added; [|discriminate]. rewrite Heq, app_nil_r in Hin.
    cbn [survivors] in Hin. apply In_filter_keeps in Hin as [Hin _].
    now apply Hw.
Qed.

Lemma idsBehindCounter_performAll (ops : list Op) (w : World) :
  idsBehindCounter w -> idsBehindCounter (performAll ops w).
Proof.
  revert w. induction ops as [|o ops IH]; intros w Hw; cbn; [exact Hw|].
  now apply IH, idsBehindCounter_perform.
Qed.


(** * Further properties of the component *)

(** ** The shape of an operation's result *)

Lemma perform_shape (o : Op) (w : World) :
  (changes o w = false /\ perform o w = w)
  \/ (changes o w = true
      /\ exists w1 : World,
           perform o w = world (saveEffect w1)
           /\ loading w1 = loading w
           /\ error w1 = error w
           /\ localStorage w1 = localStorage w).
Proof.
  destruct o as [now tr | now1 now2 p | i]; cbn [changes].
  - right. split; [reflexivity|]. eexists. repeat split.
  - right. split; [reflexivity|]. eexists. repeat split.
  - destruct (getTransaction i w) as [t|] eqn:E.
    + right. split; [reflexivity|].
      rewrite (perform_Delete_found i w t E). eexists. repeat split.
    + left. split; [reflexivity|]. now apply perform_Delete_missing.
Qed.

Lemma loading_perform (o : Op) (w : World) : loading (perform o w) = loading w.
Proof.
  destruct (perform_shape o w) as [[_ ->]|(_ & w1 & -> & Hl & _)]; [reflexivity|].
  now autorewrite with frames.
Qed.

Lemma localStorage_saveEffect (w : World) :
  localStorage (world (saveEffect w))
  = if negb (loading w) && (0 <? List.length (transactions w))%nat
    then Some (JSON_stringify (transactions w))
    else localStorage w.
Proof. unfold saveEffect. destruct (negb _ && _); reflexivity. Qed.

Lemma localStorage_perform_pending (o : Op) (w : World) :
  loading w = true -> localStorage (perform o w) = localStorage w.
Proof.
  intros Hl.
  destruct (perform_shape o w) as [[_ ->]|(_ & w1 & -> & Hl1 & _ & Hs)]; [reflexivity|].
  rewrite localStorage_saveEffect, Hl1, Hl. exact Hs.
Qed.

Lemma loading_performAll (ops : list Op) (w : World) :
  loading (performAll ops w) = loading w.
Proof.
  revert w. induction ops as [|o ops IH]; intros w; cbn; [reflexivity|].
  now rewrite IH, loading_perform.
Qed.

Lemma error_performAll (ops : list Op) (w : World) :
  error (performAll ops w) = error w.
Proof.
  revert w. induction ops as [|o ops IH]; intros w; cbn; [reflexivity|].
  now rewrite IH, error_perform.
Qed.

Lemma localStorage_performAll_pending (ops : list Op) (w : World) :
  loading w = true -> localStorage (performAll ops w) = localStorage w.
Proof.
  revert w. induction ops as [|o ops IH]; intros w Hl; cbn; [reflexivity|].
  rewrite IH; [now apply localStorage_perform_pending|].
  now rewrite loading_perform.
Qed.

(** ** The load *)

Lemma commit_load (l : list Transaction) (w : World) :
  commit (setTransactions (fun _ => l) ;; setLoading false) w
  = world (saveEffect (mkWorld l false (error w) (localStorage w)
                               (balanceCalls w) (toasts w) (nextId w))).
Proof. reflexivity. Qed.

Lemma commit_load_failure (msg : string) (w : World) :
  loading w = true ->
  commit (setError msg ;; setLoading false) w
  = world (saveEffect (mkWorld (transactions w) false (Some msg) (localStorage w)
                               (balanceCalls w) (toasts w) (nextId w))).
Proof. unfold commit, bind. cbn. now intros ->. Qed.

Lemma localStorage_after_load (l : list Transaction) (w : World) :
  localStorage (world (saveEffect (mkWorld l false (error w) (localStorage w)
                                           (balanceCalls w) (toasts w) (nextId w))))
  = match l with
    | [] => localStorage w
    | _ :: _ => Some (JSON_stringify l)
    end.
Proof. rewrite localStorage_saveEffect. now destruct l. Qed.

(** X1. With no item under the key, or the empty string, the load takes the seed
    as the collection and clears [loading]; the error cell, the balance calls
    and the toasts are left alone.  A non-empty seed is written to the store
    at once; an empty seed leaves the store as it is. *)
Theorem load_without_snapshot_takes_the_seed
    (mock : list Transaction) (w : World) :
  localStorage w = None \/ localStorage w = Some EmptyText ->
  exists w' : World,
    initialLoad mock w = Some w'
    /\ transactions w' = mock
    /\ loading w' = false
    /\ error w' = error w
    /\ balanceCalls w' = balanceCalls w
    /\ toasts w' = toasts w
    /\ (mock <> [] -> localStorage w' = Some (JSON_stringify mock))
    /\ (mock = [] -> localStorage w' = localStorage w).
Proof.
  intros Hstored.
  assert (Hload : initialLoad mock w
                  = Some (commit (setTransactions (fun _ => mock) ;; setLoading false) w)).
  { unfold initialLoad, loadCallback. destruct Hstored as [-> | ->]; reflexivity. }
  rewrite Hload, commit_load. eexists. split; [reflexivity|].
  rewrite localStorage_after_load. autorewrite with frames.
  cbn [transactions loading error balanceCalls toasts].
  repeat (split; [reflexivity|]).
  split.
  - intros Hne. destruct mock; [now elim Hne | reflexivity].
  - now intros ->.
Qed.

Lemma load_without_snapshot_witness :
  let seed := mkTransaction "t0" "C1" "A1" deposit 100 "salary"
                            "2024-01-01 09:00:00" "completed" "HTG" None None in
  (localStorage (mounted (Some EmptyText) 1) = None
   \/ localStorage (mounted (Some EmptyText) 1) = Some EmptyText)
  /\ exists w' : World,
       initialLoad [seed] (mounted (Some EmptyText) 1) = Some w'
       /\ transactions w' = [seed]
       /\ error w' = None
       /\ localStorage w' = Some (JSON_stringify [seed]).
Proof.
  intros seed.
  assert (H : localStorage (mounted (Some EmptyText) 1) = None
              \/ localStorage (mounted (Some EmptyText) 1) = Some EmptyText)
    by (right; reflexivity).
  split; [exact H|].
  destruct (load_without_snapshot_takes_the_seed [seed] _ H)
    as (w' & Hload & Htx & _ & Herr & _ & _ & Hsave & _).
  exists w'. repeat split; try assumption.
  apply Hsave. discriminate.
Defined.

(** X2. What the callbacks do while the load is pending is overwritten by a load
    that succeeds: the collection and the stored item are those of a load
    with nothing done before it, the records created meanwhile are gone, and
    the balance calls made for them stay. *)
Theorem load_overwrites_what_was_done_while_pending
    (mock : list Transaction) (stored : option StoredText) (counter : nat)
    (ops : list Op) (w0 : World) :
  initialLoad mock (mounted stored counter) = Some w0 ->
  error w0 = None ->
  exists w1 : World,
    initialLoad mock (performAll ops (mounted stored counter)) = Some w1
    /\ transactions w1 = transactions w0
    /\ localStorage w1 = localStorage w0
    /\ error w1 = None
    /\ loading w1 = false
    /\ balanceCalls w1 = balanceCalls (performAll ops (mounted stored counter)).
Proof.
  intros Hload Herr.
  set (wp := performAll ops (mounted stored counter)).
  assert (Hs : localStorage wp = stored).
  { unfold wp. now rewrite localStorage_performAll_pending. }
  assert (He : error wp = None).
  { unfold wp. now rewrite error_performAll. }
  assert (Hsuccess :
    forall l, initialLoad mock (mounted stored counter)
              = Some (commit (setTransactions (fun _ => l) ;; setLoading false)
                             (mounted stored counter)) ->
              initialLoad mock wp
              = Some (commit (setTransactions (fun _ => l) ;; setLoading false) wp) ->
              exists w1 : World,
                initialLoad mock wp = Some w1
                /\ transactions w1 = transactions w0
                /\ localStorage w1 = localStorage w0
                /\ error w1 = None
                /\ loading w1 = false
                /\ balanceCalls w1 = balanceCalls wp).
  { intros l H0 Hp. rewrite H0 in Hload. injection Hload as <-.
    rewrite Hp. eexists. split; [reflexivity|].
    rewrite !commit_load, !localStorage_after_load. autorewrite with frames.
    cbn [transactions error loading balanceCalls localStorage mounted].
    rewrite Hs, He. repeat split. }
  unfold initialLoad, loadCallback in Hload, Hsuccess |- *.
  rewrite Hs in *. cbn [localStorage mounted] in Hload, Hsuccess.
  destruct stored as [[| |v]|]; cbn [truthy JSON_parse option_map] in *.
  - now apply (Hsuccess mock).
  - injection Hload as <-.
    rewrite commit_load_failure in Herr by reflexivity.
    autorewrite with frames in Herr. discriminate.
  - destruct (asTransactionArray v) as [l|]; [|discriminate].
    now apply (Hsuccess l).
  - now apply (Hsuccess mock).
Qed.

Lemma load_overwrites_witness :
  let seed := mkTransaction "t0" "C1" "A1" deposit 100 "salary"
                            "2024-01-01 09:00:00" "completed" "HTG" None None in
  let tr := NewTransaction.mk "C2" "A2" deposit 7 "tip" "HTG" None None in
  let ops := [Add "2024-01-02 10:00:00" tr] in
  exists w0 w1 : World,
    initialLoad [seed] (mounted None 1) = Some w0
    /\ error w0 = None
    /\ initialLoad [seed] (performAll ops (mounted None 1)) = Some w1
    /\ transactions w1 = [seed]
    /\ balanceCalls w1 = [mkBalanceCall "C2" "A2" 7 true].
Proof.
  intros seed tr ops.
  destruct (load_overwrites_what_was_done_while_pending
              [seed] None 1 ops _ eq_refl eq_refl)
    as (w1 & Hload & Htx & _ & _ & _ & Hcalls).
  eexists. exists w1.
  split; [reflexivity|]. split; [reflexivity|].
  split; [exact Hload|]. split; [exact Htx | exact Hcalls].
Defined.

(** ** The stored item *)

Lemma localStorage_perform_cases (o : Op) (w : World) :
  localStorage (perform o w) = localStorage w
  \/ (loading w = false
      /\ transactions (perform o w) <> []
      /\ localStorage (perform o w)
         = Some (JSON_stringify (transactions (perform o w)))).
Proof.
  destruct (perform_shape o w) as [[_ ->]|(_ & w1 & -> & Hl & _ & Hs)];
    [now left|].
  rewrite localStorage_saveEffect. autorewrite with frames. rewrite Hl.
  destruct (loading w); cbn [negb andb]; [now left|].
  destruct (transactions w1) as [|t l]; cbn; [now left|].
  right. repeat split. discriminate.
Qed.

Lemma initialLoad_store_cases (mock : list Transaction) (w w' : World) :
  initialLoad mock w = Some w' ->
  localStorage w' = localStorage w
  \/ (transactions w' <> []
      /\ localStorage w' = Some (JSON_stringify (transactions w'))).
Proof.
  assert (Hsave : forall w1, localStorage w1 = localStorage w ->
            localStorage (world (saveEffect w1)) = localStorage w
            \/ (transactions (world (saveEffect w1)) <> []
                /\ localStorage (world (saveEffect w1))
                   = Some (JSON_stringify (transactions (world (saveEffect w1)))))).
  { intros w1 Hs. rewrite localStorage_saveEffect. autorewrite with frames.
    destruct (negb (loading w1)); cbn [andb]; [|now left].
    destruct (transactions w1) as [|t l]; cbn; [now left|].
    right. split; [discriminate | reflexivity]. }
  unfold initialLoad, loadCallback.
  destruct (localStorage w) as [[| |v]|] eqn:Es;
    cbn [truthy JSON_parse option_map].
  - intros [= <-]. rewrite commit_load. now apply Hsave.
  - intros [= <-]. unfold commit, bind. cbn.
    destruct (negb (Bool.eqb (loading w) false)); [now apply Hsave | now left].
  - destruct (asTransactionArray v) as [l|]; [|discriminate].
    cbn [option_map]. intros [= <-]. rewrite commit_load. now apply Hsave.
  - intros [= <-]. rewrite commit_load. now apply Hsave.
Qed.

Lemma JSON_stringify_nil (l : list Transaction) :
  JSON_stringify l = JSON_stringify [] -> l = [].
Proof.
  unfold JSON_stringify. intros H. injection H as H.
  now apply map_eq_nil in H.
Qed.

Lemma loadsCleanly_snapshot (l : list Transaction) :
  loadsCleanly (Some (JSON_stringify l)).
Proof.
  intros mock counter.
  destruct (initialLoad_of_snapshot mock l counter) as (w' & Hload & _ & _ & Herr).
  now exists w'.
Qed.

(** X3. The operations never spoil the store: if a mount would load the stored
    item without error before a run of operations, a mount loads the stored
    item without error after it. *)
Theorem operations_keep_the_store_loadable (ops : list Op) (w : World) :
  loadsCleanly (localStorage w) ->
  loadsCleanly (localStorage (performAll ops w)).
Proof.
  revert w. induction ops as [|o ops IH]; intros w Hw; cbn; [exact Hw|].
  apply IH.
  destruct (localStorage_perform_cases o w) as [-> | (_ & _ & ->)];
    [exact Hw | apply loadsCleanly_snapshot].
Qed.

Lemma operations_keep_the_store_loadable_witness :
  let seed := mkTransaction "t0" "C1" "A1" deposit 100 "salary"
                            "2024-01-01 09:00:00" "completed" "HTG" None None in
  let w := mkWorld [seed] false None None [] [] 1 in
  let ops := [ Transfer "2024-01-02 10:01:00" "2024-01-02 10:01:00"
                        (TransferParams.mk "C1" "A1" "C2" "A2" 50 "rent" "HTG");
               Delete "t0"; Delete "t1"; Delete "t2" ] in
  loadsCleanly (localStorage w)
  /\ loadsCleanly (localStorage (performAll ops w)).
Proof.
  intros seed w ops.
  assert (Hw : loadsCleanly (localStorage w)).
  { intros mock counter. eexists. split; [reflexivity|].
    unfold commit, bind. cbn. destruct mock; reflexivity. }
  split; [exact Hw|].
  exact (operations_keep_the_store_loadable ops w Hw).
Defined.

(** X4. The component never stores the text of an empty collection: if the
    stored item is not that text, it is not that text after any run of
    operations, nor after a load. *)
Theorem empty_collection_is_never_stored (w : World) :
  localStorage w <> Some (JSON_stringify []) ->
  (forall ops, localStorage (performAll ops w) <> Some (JSON_stringify []))
  /\ (forall mock w', initialLoad mock w = Some w' ->
                      localStorage w' <> Some (JSON_stringify [])).
Proof.
  intros Hw. split.
  - intros ops. revert w Hw.
    induction ops as [|o ops IH]; intros w Hw; cbn; [exact Hw|].
    apply IH.
    destruct (localStorage_perform_cases o w) as [-> | (_ & Hne & ->)];
      [exact Hw|].
    intros [= H]. apply Hne. apply JSON_stringify_nil.
    unfold JSON_stringify. now rewrite H.
  - intros mock w' Hload.
    destruct (initialLoad_store_cases mock w w' Hload) as [-> | (Hne & ->)];
      [exact Hw|].
    intros [= H]. apply Hne. apply JSON_stringify_nil.
    unfold JSON_stringify. now rewrite H.
Qed.

Lemma empty_collection_is_never_stored_witness :
  let seed := mkTransaction "t0" "C1" "A1" deposit 100 "salary"
                            "2024-01-01 09:00:00" "completed" "HTG" None None in
  let w := mkWorld [seed] false None (Some (JSON_stringify [seed])) [] [] 1 in
  localStorage w <> Some (JSON_stringify [])
  /\ transactions (performAll [Delete "t0"] w) = []
  /\ localStorage (performAll [Delete "t0"] w) <> Some (JSON_stringify []).
Proof.
  intros seed w.
  assert (Hw : localStorage w <> Some (JSON_stringify [])) by discriminate.
  split; [exact Hw|]. split; [reflexivity|].
  exact (proj1 (empty_collection_is_never_stored w Hw) [Delete "t0"]).
Defined.


(** ** Several calls in one event *)



(** An event that makes one call is the operation. *)
Lemma performTogether_one (o : Op) (w : World) :
  performTogether [o] w = perform o w.
Proof.
  unfold performTogether, perform, commit. cbn [handlers].
  unfold bind, ret. cbn [depsChanged world value]. now rewrite orb_false_r.
Qed.



Lemma snapshotCurrent_saveEffect (w : World) :
  loading w = false -> snapshotCurrent (world (saveEffect w)).
Proof.
  intros Hl. unfold snapshotCurrent.
  rewrite localStorage_saveEffect. autorewrite with frames. rewrite Hl.
  split; [reflexivity|].
  destruct (transactions w); [now intros H; elim H | reflexivity].
Qed.

Lemma snapshotCurrent_perform (o : Op) (w : World) :
  snapshotCurrent w -> snapshotCurrent (perform o w).
Proof.
  intros Hw.
  destruct (perform_shape o w) as [[_ ->]|(_ & w1 & -> & Hl & _)]; [exact Hw|].
  apply snapshotCurrent_saveEffect. rewrite Hl. exact (proj1 Hw).
Qed.

Lemma snapshotCurrent_performAll (ops : list Op) (w : World) :
  snapshotCurrent w -> snapshotCurrent (performAll ops w).
Proof.
  revert w. induction ops as [|o ops IH]; intros w Hw; cbn; [exact Hw|].
  now apply IH, snapshotCurrent_perform.
Qed.





(** ** Deleting what was created *)

Lemma filter_keeps_absent (i : string) (l : list Transaction) :
  (forall x, In x l -> id x <> i) -> filter (keeps i) l = l.
Proof.
  intros H. apply filter_all_true. intros x Hx. unfold keeps.
  apply negb_true_iff, String.eqb_neq. now apply H.
Qed.

Lemma find_id_app_absent (i : string) (l l' : list Transaction) :
  (forall x, In x l -> id x <> i) ->
  find (fun t => id t =? i) (l ++ l') = find (fun t => id t =? i) l'.
Proof.
  induction l as [|x l IH]; intros H; cbn; [reflexivity|].
  rewrite (proj2 (String.eqb_neq _ _) (H x (or_introl eq_refl))).
  apply IH. intros y Hy. apply H. now right.
Qed.


(** Deleting by an id that exactly one record carries. *)
Lemma perform_Delete_split
    (i : string) (w : World) (pre post : list Transaction) (t : Transaction) :
  transactions w = pre ++ t :: post ->
  (forall x, In x pre -> id x <> i) ->
  id t = i ->
  (forall x, In x post -> id x <> i) ->
  getTransaction i w = Some t
  /\ perform (Delete i) w
     = world (saveEffect
                (mkWorld (pre ++ post) (loading w) (error w) (localStorage w)
                         (balanceCalls w ++ [reversal t])
                         (toasts w ++ ["Transaction supprimée avec succès!"])
                         (nextId w))).
Proof.
  intros Hsplit Hpre Ht Hpost.
  assert (Hfind : getTransaction i w = Some t).
  { unfold getTransaction. rewrite Hsplit, find_id_app_absent by exact Hpre.
    cbn. now rewrite (proj2 (String.eqb_eq _ _) Ht). }
  split; [exact Hfind|].
  rewrite (perform_Delete_found i w t Hfind), Hsplit, filter_app.
  cbn [filter]. unfold keeps at 2.
  rewrite (proj2 (String.eqb_eq _ _) Ht). cbn [negb].
  now rewrite !filter_keeps_absent.
Qed.

Lemma NoDup_ids_split (pre post : list Transaction) (t : Transaction) :
  NoDup (map id (pre ++ t :: post)) ->
  (forall x, In x pre -> id x <> id t) /\ (forall x, In x post -> id x <> id t).
Proof.
  rewrite map_app. cbn [map]. intros H.
  apply NoDup_remove_2 in H.
  split; intros x Hx Heq; apply H, in_or_app; [left|right];
    rewrite <- Heq; now apply in_map.
Qed.

(** X6. When the ids of the collection are pairwise different, deleting by the id
    of a record takes exactly this record out: the records before it and
    after it stay, in their order, and the one balance call made is the
    reversal of this record. *)
Theorem deleteTransaction_with_unique_ids_removes_one_record
    (w : World) (pre post : list Transaction) (t : Transaction) :
  uniqueIds w ->
  transactions w = pre ++ t :: post ->
  getTransaction (id t) w = Some t
  /\ transactions (perform (Delete (id t)) w) = pre ++ post
  /\ balanceCalls (perform (Delete (id t)) w) = balanceCalls w ++ [reversal t]
  /\ uniqueIds (perform (Delete (id t)) w).
Proof.
  unfold uniqueIds. intros Hnd Hsplit. rewrite Hsplit in Hnd.
  destruct (NoDup_ids_split pre post t Hnd) as [Hpre Hpost].
  destruct (perform_Delete_split (id t) w pre post t Hsplit Hpre eq_refl Hpost)
    as [Hfind ->].
  autorewrite with frames. cbn [transactions balanceCalls].
  repeat (split; [first [assumption | reflexivity]|]).
  rewrite map_app in *. cbn [map] in Hnd. now apply NoDup_remove_1 in Hnd.
Qed.

Lemma deleteTransaction_with_unique_ids_witness :
  let a := mkTransaction "t1" "C1" "A1" deposit 10 "first"
                         "2024-01-01 09:00:00" "completed" "HTG" None None in
  let b := mkTransaction "t2" "C2" "A2" withdrawal 20 "other"
                         "2024-01-01 09:05:00" "completed" "HTG" None None in
  let c := mkTransaction "t3" "C1" "A3" withdrawal 30 "second"
                         "2024-01-01 09:10:00" "completed" "HTG" None None in
  let w := mkWorld [a; b; c] false None None [] [] 4 in
  uniqueIds w
  /\ transactions (perform (Delete "t2") w) = [a; c]
  /\ balanceCalls (perform (Delete "t2") w) = [mkBalanceCall "C2" "A2" 20 true].
Proof.
  intros a b c w.
  assert (Hu : uniqueIds w).
  { unfold uniqueIds. cbn. repeat constructor; cbn; intuition discriminate. }
  split; [exact Hu|].
  destruct (deleteTransaction_with_unique_ids_removes_one_record w [a] [c] b Hu eq_refl)
    as (_ & Htx & Hcalls & _).
  split; [exact Htx | exact Hcalls].
Defined.

Lemma perform_Add (now : string) (tr : NewTransaction.t) (w : World) :
  perform (Add now tr) w
  = world (saveEffect
             (mkWorld
                (transactions w
                   ++ [mkTransaction (firstId w)
                                     (NewTransaction.clientId tr)
                                     (NewTransaction.accountId tr)
                                     (NewTransaction.type tr)
                                     (NewTransaction.amount tr)
                                     (NewTransaction.description tr)
                                     now "completed"
                                     (NewTransaction.currency tr)
                                     (NewTransaction.recipientAccountId tr)
                                     (NewTransaction.recipientClientId tr)])
                (loading w) (error w) (localStorage w)
                (balanceCalls w
                   ++ [mkBalanceCall (NewTransaction.clientId tr)
                                     (NewTransaction.accountId tr)
                                     (NewTransaction.amount tr)
                                     (TransactionType_eqb (NewTransaction.type tr) deposit)])
                (toasts w
                   ++ [((if TransactionType_eqb (NewTransaction.type tr) deposit
                         then "Dépôt" else "Retrait")
                          ++ " effectué avec succès!")%string])
                (nextId (world (getNewId "t" w))))).
Proof. reflexivity. Qed.

Lemma perform_Transfer (now1 now2 : string) (p : TransferParams.t) (w : World) :
  perform (Transfer now1 now2 p) w
  = world (saveEffect
             (mkWorld
                (transactions w
                   ++ [ mkTransaction (firstId w)
                                      (TransferParams.fromClientId p)
                                      (TransferParams.fromAccountId p)
                                      transfer (TransferParams.amount p)
                                      ("Transfert vers " ++ TransferParams.description p)%string
                                      now1 "completed" (TransferParams.currency p)
                                      (Some (TransferParams.toAccountId p))
                                      (Some (TransferParams.toClientId p));
                        mkTransaction (secondId w)
                                      (TransferParams.toClientId p)
                                      (TransferParams.toAccountId p)
                                      transfer (TransferParams.amount p)
                                      ("Transfert reçu de " ++ TransferParams.description p)%string
                                      now2 "completed" (TransferParams.currency p)
                                      (Some (TransferParams.fromAccountId p))
                                      (Some (TransferParams.fromClientId p)) ])
                (loading w) (error w) (localStorage w)
                ((balanceCalls w
                    ++ [mkBalanceCall (TransferParams.fromClientId p)
                                      (TransferParams.fromAccountId p)
                                      (TransferParams.amount p) false])
                   ++ [mkBalanceCall (TransferParams.toClientId p)
                                     (TransferParams.toAccountId p)
                                     (TransferParams.amount p) true])
                (toasts w ++ ["Transfert effectué avec succès!"])
                (nextId (world (getNewId "t" (world (getNewId "t" w))))))).
Proof. reflexivity. Qed.

Lemma firstId_is_new (w : World) :
  forall x, In x (transactions w) -> id x <> firstId w.
Proof. apply getNewId_is_new. Qed.

Lemma secondId_is_new (w : World) :
  forall x, In x (transactions w) -> id x <> secondId w.
Proof. apply (getNewId_is_new "t" (world (getNewId "t" w))). Qed.

Lemma firstId_secondId (w : World) : firstId w <> secondId w.
Proof.
  unfold firstId, secondId. cbn [value getNewId world]. intros Heq.
  apply newId_inj in Heq.
  pose proof (freeIndex_from_counter "t" (world (getNewId "t" w))) as Hge.
  cbn [world getNewId nextId] in Hge. lia.
Qed.

Lemma performTogether_then_absent_Delete (calls : list Op) (i : string) (w : World) :
  (forall x, In x (transactions w) -> id x <> i) ->
  performTogether (calls ++ [Delete i]) w = performTogether calls w.
Proof.
  intros Habsent. unfold performTogether, commit. cbv zeta.
  rewrite handlers_then_absent_Delete; [reflexivity|].
  now apply (proj2 (getTransaction_None i w)).
Qed.

(** X7. [addTransaction], a render, and then [deleteTransaction] with the id
    the record was given (new to the collection, as [getNewId] is modelled)
    cancel out: the collection is what it was before, and the two balance
    calls made are opposite, the second with the same client, account and
    amount and the other direction, whatever the type.  When one event makes
    both calls, the deletion finds nothing in the rendered collection: the
    event does what [addTransaction] alone does. *)
Theorem addTransaction_then_deleteTransaction_cancels
    (now : string) (tr : NewTransaction.t) (w : World) :
  transactions (perform (Delete (firstId w)) (perform (Add now tr) w))
  = transactions w
  /\ balanceCalls (perform (Delete (firstId w)) (perform (Add now tr) w))
     = balanceCalls w
         ++ [ mkBalanceCall (NewTransaction.clientId tr) (NewTransaction.accountId tr)
                            (NewTransaction.amount tr)
                            (TransactionType_eqb (NewTransaction.type tr) deposit);
              mkBalanceCall (NewTransaction.clientId tr) (NewTransaction.accountId tr)
                            (NewTransaction.amount tr)
                            (negb (TransactionType_eqb (NewTransaction.type tr) deposit)) ]
  /\ performTogether [Add now tr; Delete (firstId w)] w = perform (Add now tr) w.
Proof.
  split; [|split].
  3: { rewrite <- performTogether_one.
       apply (performTogether_then_absent_Delete [Add now tr]), firstId_is_new. }
  all: rewrite perform_Add;
    match goal with
    | |- context [perform (Delete ?i) (world (saveEffect ?W))] =>
        destruct (perform_Delete_split i (world (saveEffect W)) (transactions w) []
                    (mkTransaction i
                       (NewTransaction.clientId tr) (NewTransaction.accountId tr)
                       (NewTransaction.type tr) (NewTransaction.amount tr)
                       (NewTransaction.description tr) now "completed"
                       (NewTransaction.currency tr)
                       (NewTransaction.recipientAccountId tr)
                       (NewTransaction.recipientClientId tr)))
          as [_ ->];
        [ now autorewrite with frames
        | apply firstId_is_new
        | reflexivity
        | intros x []
        | autorewrite with frames;
          cbn [transactions balanceCalls reversal clientId accountId amount type];
          rewrite ?app_nil_r, <- ?app_assoc; reflexivity ]
    end.
Qed.

(** X8. [transferFunds], a render, and then the deletion of its two records,
    the sender's and then the recipient's, each in an event of its own, by the
    ids they were given (new to the collection, as [getNewId] is modelled),
    bring the collection back; of the four balance calls made, the sender's
    account is debited and then credited, and the recipient's account is
    credited twice: the deletion of the recipient's record credits it again.
    When one event makes the three calls, the deletions find nothing in the
    rendered collection: the event does what [transferFunds] alone does. *)
Theorem transferFunds_then_deleting_both_credits_the_recipient_twice
    (now1 now2 : string) (p : TransferParams.t) (w : World) :
  transactions
    (perform (Delete (secondId w))
       (perform (Delete (firstId w)) (perform (Transfer now1 now2 p) w)))
  = transactions w
  /\ balanceCalls
       (perform (Delete (secondId w))
          (perform (Delete (firstId w)) (perform (Transfer now1 now2 p) w)))
     = balanceCalls w
         ++ [ mkBalanceCall (TransferParams.fromClientId p)
                            (TransferParams.fromAccountId p)
                            (TransferParams.amount p) false;
              mkBalanceCall (TransferParams.toClientId p)
                            (TransferParams.toAccountId p)
                            (TransferParams.amount p) true;
              mkBalanceCall (TransferParams.fromClientId p)
                            (TransferParams.fromAccountId p)
                            (TransferParams.amount p) true;
              mkBalanceCall (TransferParams.toClientId p)
                            (TransferParams.toAccountId p)
                            (TransferParams.amount p) true ]
  /\ performTogether [Transfer now1 now2 p; Delete (firstId w); Delete (secondId w)] w
     = perform (Transfer now1 now2 p) w.
Proof.
  assert (Hevent :
    performTogether [Transfer now1 now2 p; Delete (firstId w); Delete (secondId w)] w
    = perform (Transfer now1 now2 p) w).
  { transitivity (performTogether [Transfer now1 now2 p; Delete (firstId w)] w).
    - apply (performTogether_then_absent_Delete
               [Transfer now1 now2 p; Delete (firstId w)]), secondId_is_new.
    - rewrite <- performTogether_one.
      apply (performTogether_then_absent_Delete [Transfer now1 now2 p]),
        firstId_is_new. }
  set (s := mkTransaction (firstId w)
                          (TransferParams.fromClientId p) (TransferParams.fromAccountId p)
                          transfer (TransferParams.amount p)
                          ("Transfert vers " ++ TransferParams.description p)%string
                          now1 "completed" (TransferParams.currency p)
                          (Some (TransferParams.toAccountId p))
                          (Some (TransferParams.toClientId p))).
  set (r := mkTransaction (secondId w)
                          (TransferParams.toClientId p) (TransferParams.toAccountId p)
                          transfer (TransferParams.amount p)
                          ("Transfert reçu de " ++ TransferParams.description p)%string
                          now2 "completed" (TransferParams.currency p)
                          (Some (TransferParams.fromAccountId p))
                          (Some (TransferParams.fromClientId p))).
  assert (Hfirst :
    perform (Delete (firstId w)) (perform (Transfer now1 now2 p) w)
    = world (saveEffect
               (mkWorld (transactions w ++ [r]) (loading w) (error w)
                        (localStorage (perform (Transfer now1 now2 p) w))
                        (balanceCalls (perform (Transfer now1 now2 p) w) ++ [reversal s])
                        (toasts (perform (Transfer now1 now2 p) w)
                           ++ ["Transaction supprimée avec succès!"])
                        (nextId (perform (Transfer now1 now2 p) w))))).
  { destruct (perform_Delete_split (firstId w) (perform (Transfer now1 now2 p) w)
                (transactions w) [r] s) as [_ ->].
    - rewrite perform_Transfer. now autorewrite with frames.
    - apply firstId_is_new.
    - reflexivity.
    - intros x [<-|[]]. cbn [id r]. intros Heq. now apply (firstId_secondId w).
    - rewrite perform_Transfer at 1 2. now autorewrite with frames. }
  split; [|split; [|exact Hevent]]; rewrite Hfirst;
    match goal with
    | |- context [perform (Delete ?i) (world (saveEffect ?W))] =>
        destruct (perform_Delete_split i (world (saveEffect W)) (transactions w) [] r)
          as [_ ->];
        [ now autorewrite with frames
        | apply secondId_is_new
        | reflexivity
        | intros x []
        | autorewrite with frames; cbn [transactions balanceCalls];
          rewrite ?perform_Transfer; autorewrite with frames; cbn [balanceCalls];
          rewrite ?app_nil_r, <- ?app_assoc; reflexivity ]
    end.
Qed.

(** ** Lookups across events *)







Lemma filter_client_keeps (c i : string) (l : list Transaction) :
  (forall t, In t l -> id t = i -> clientId t <> c) ->
  filter (fun t => clientId t =? c) (filter (keeps i) l)
  = filter (fun t => clientId t =? c) l.
Proof.
  induction l as [|x l IH]; intros H; cbn; [reflexivity|].
  assert (IH' : filter (fun t => clientId t =? c) (filter (keeps i) l)
                = filter (fun t => clientId t =? c) l).
  { apply IH. intros t Ht. apply H. now right. }
  unfold keeps at 1. destruct (String.eqb_spec (id x) i) as [Hx|Hx]; cbn.
  - rewrite (proj2 (String.eqb_neq _ _) (H x (or_introl eq_refl) Hx)). exact IH'.
  - now rewrite IH'.
Qed.

(** X10. An operation that does not involve a client leaves what
    [getClientTransactions] returns for this client as it is: a record added
    for another client, a transfer between other clients, a deletion by an id
    that none of the client's records carries. *)
Theorem other_clients_answers_are_untouched (c : string) (o : Op) (w : World) :
  ~ involves c o w ->
  getClientTransactions c (perform o w) = getClientTransactions c w.
Proof.
  intros Hnot. unfold getClientTransactions.
  destruct o as [now tr | now1 now2 p | i]; cbn [involves] in Hnot.
  - rewrite perform_Add. autorewrite with frames. cbn [transactions].
    rewrite filter_app. cbn [filter clientId].
    rewrite (proj2 (String.eqb_neq _ _) Hnot). apply app_nil_r.
  - rewrite perform_Transfer. autorewrite with frames. cbn [transactions].
    rewrite filter_app. cbn [filter clientId].
    rewrite (proj2 (String.eqb_neq (TransferParams.fromClientId p) c)) by tauto.
    rewrite (proj2 (String.eqb_neq (TransferParams.toClientId p) c)) by tauto.
    apply app_nil_r.
  - destruct (transactions_perform (Delete i) w) as (added & -> & Hlen).
    destruct added; [|discriminate]. rewrite app_nil_r. cbn [survivors].
    apply filter_client_keeps. intros t Hin Hid Hc.
    apply Hnot. now exists t.
Qed.

Lemma other_clients_answers_witness :
  let a := mkTransaction "t1" "C1" "A1" deposit 10 "first"
                         "2024-01-01 09:00:00" "completed" "HTG" None None in
  let b := mkTransaction "t2" "C2" "A2" withdrawal 20 "other"
                         "2024-01-01 09:05:00" "completed" "HTG" None None in
  let w := mkWorld [a; b] false None None [] [] 3 in
  let o := Transfer "2024-01-02 10:01:00" "2024-01-02 10:01:00"
                    (TransferParams.mk "C2" "A2" "C3" "A3" 5 "gift" "HTG") in
  ~ involves "C1" o w
  /\ getClientTransactions "C1" (perform o w) = [a].
Proof.
  intros a b w o.
  assert (Hnot : ~ involves "C1" o w) by (cbn; intros [H|H]; discriminate).
  split; [exact Hnot|].
  exact (other_clients_answers_are_untouched "C1" o w Hnot).
Defined.

(** ** Unique ids *)

Lemma ids_of_kept_records (i : string) (l : list Transaction) (x : string) :
  In x (map id (filter (keeps i) l)) -> In x (map id l).
Proof.
  rewrite !in_map_iff. intros (t & Ht & Hin).
  exists t. split; [exact Ht|]. now apply In_filter_keeps in Hin.
Qed.

Lemma uniqueIds_filter_keeps (i : string) (l : list Transaction) :
  NoDup (map id l) -> NoDup (map id (filter (keeps i) l)).
Proof.
  induction l as [|t l IH]; cbn [filter map]; intros Hnd; [constructor|].
  apply NoDup_cons_iff in Hnd as [Hfresh Hrest].
  destruct (keeps i t); cbn [map]; [|now apply IH].
  constructor; [|now apply IH].
  intros Hin. now apply Hfresh, (ids_of_kept_records i).
Qed.

Lemma uniqueIds_perform (o : Op) (w : World) :
  uniqueIds w -> uniqueIds (perform o w).
Proof.
  unfold uniqueIds. intros Hnd.
  assert (Hnew1 : ~ In (firstId w) (map id (transactions w))).
  { intros Hin. apply in_map_iff in Hin as (x & Hx & Hin).
    now apply (firstId_is_new w x). }
  assert (Hnew2 : ~ In (secondId w) (map id (transactions w))).
  { intros Hin. apply in_map_iff in Hin as (x & Hx & Hin).
    now apply (secondId_is_new w x). }
  destruct o as [now tr | now1 now2 p | i].
  - rewrite perform_Add. autorewrite with frames. cbn [transactions].
    rewrite map_app. cbn [map id]. apply NoDup_app; [exact Hnd | |].
    + repeat constructor. intros [].
    + intros a Ha [<-|[]]. now apply Hnew1.
  - rewrite perform_Transfer. autorewrite with frames. cbn [transactions].
    rewrite map_app. cbn [map id]. apply NoDup_app; [exact Hnd | |].
    + repeat constructor; [|intros []].
      intros [Heq|[]]. now apply (firstId_secondId w).
    + intros a Ha [<-|[<-|[]]]; [now apply Hnew1 | now apply Hnew2].
  - destruct (transactions_perform (Delete i) w) as (added & -> & Hlen).
    destruct added; [|discriminate]. rewrite app_nil_r. cbn [survivors].
    now apply uniqueIds_filter_keeps.
Qed.

(** X11. Unique ids are kept: when the ids of the collection are pairwise
    different and behind the counter of [getNewId], they are so after any run
    of operations. *)
Theorem unique_ids_are_kept (ops : list Op) (w : World) :
  idsBehindCounter w ->
  uniqueIds w ->
  idsBehindCounter (performAll ops w) /\ uniqueIds (performAll ops w).
Proof.
  revert w. induction ops as [|o ops IH]; intros w Hw Hu; cbn; [now split|].
  apply IH; [now apply idsBehindCounter_perform | now apply uniqueIds_perform].
Qed.

Lemma unique_ids_are_kept_witness :
  let seed := mkTransaction "t0" "C1" "A1" deposit 100 "salary"
                            "2024-01-01 09:00:00" "completed" "HTG" None None in
  let w := mkWorld [seed] false None None [] [] 1 in
  let ops := [ Transfer "2024-01-02 10:01:00" "2024-01-02 10:01:00"
                        (TransferParams.mk "C1" "A1" "C2" "A2" 50 "rent" "HTG");
               Delete "t1";
               Add "2024-01-02 10:02:00"
                   (NewTransaction.mk "C1" "A1" withdrawal 30 "cash" "HTG" None None) ] in
  idsBehindCounter w
  /\ uniqueIds w
  /\ map id (transactions (performAll ops w)) = ["t0"; "t2"; "t3"]
  /\ uniqueIds (performAll ops w).
Proof.
  intros seed w ops.
  assert (Hw : idsBehindCounter w).
  { intros t k [<-|[]] Hk Heq. cbn in Hk, Heq.
    apply (newId_inj "t" 0 k) in Heq. lia. }
  assert (Hu : uniqueIds w).
  { unfold uniqueIds. cbn. repeat constructor. intros []. }
  split; [exact Hw|]. split; [exact Hu|]. split; [reflexivity|].
  exact (proj2 (unique_ids_are_kept ops w Hw Hu)).
Defined.

(** ** Looking up what was created *)

(** X12. The record [addTransaction] creates, under the id [getNewId] hands
    out (new to the collection, as [getNewId] is modelled), is what
    [getTransaction] returns for this id after the render, with the client,
    account, type and amount of the call and the clock's reading as date, and
    it comes last in what [getClientTransactions] returns for its client. *)
Theorem addTransaction_then_queries_find_the_record
    (now : string) (tr : NewTransaction.t) (w : World) :
  exists t : Transaction,
    getTransaction (firstId w) (perform (Add now tr) w) = Some t
    /\ id t = firstId w
    /\ clientId t = NewTransaction.clientId tr
    /\ accountId t = NewTransaction.accountId tr
    /\ type t = NewTransaction.type tr
    /\ amount t = NewTransaction.amount tr
    /\ date t = now
    /\ getClientTransactions (NewTransaction.clientId tr) (perform (Add now tr) w)
       = getClientTransactions (NewTransaction.clientId tr) w ++ [t].
Proof.
  eexists.
  unfold getTransaction, getClientTransactions.
  rewrite perform_Add. autorewrite with frames. cbn [transactions].
  split.
  - rewrite find_id_app_absent by apply firstId_is_new.
    cbn [find id]. rewrite String.eqb_refl. reflexivity.
  - cbn [id clientId accountId type amount date].
    repeat (split; [reflexivity|]).
    rewrite filter_app. cbn [filter clientId]. now rewrite String.eqb_refl.
Qed.

(** X13. After [transferFunds] and the render, [getTransaction] finds the
    sender's record and the recipient's record under the ids [getNewId]
    handed out (new to the collection, as [getNewId] is modelled); each names
    the other's client and account as its recipient; and what
    [getClientTransactions] returns for a client grows by the sender's record
    if the client is the sender and by the recipient's record if the client is
    the recipient, in this order when it is both. *)
Theorem transferFunds_then_queries_find_both_records
    (now1 now2 : string) (p : TransferParams.t) (w : World) :
  exists s r : Transaction,
    getTransaction (firstId w) (perform (Transfer now1 now2 p) w) = Some s
    /\ getTransaction (secondId w) (perform (Transfer now1 now2 p) w) = Some r
    /\ recipientClientId s = Some (clientId r)
    /\ recipientAccountId s = Some (accountId r)
    /\ recipientClientId r = Some (clientId s)
    /\ recipientAccountId r = Some (accountId s)
    /\ forall c : string,
         getClientTransactions c (perform (Transfer now1 now2 p) w)
         = getClientTransactions c w
             ++ (if TransferParams.fromClientId p =? c then [s] else [])
             ++ (if TransferParams.toClientId p =? c then [r] else []).
Proof.
  do 2 eexists.
  unfold getTransaction, getClientTransactions.
  rewrite perform_Transfer. autorewrite with frames. cbn [transactions].
  split; [|split].
  - rewrite find_id_app_absent by apply firstId_is_new.
    cbn [find id]. rewrite String.eqb_refl. reflexivity.
  - rewrite find_id_app_absent by apply secondId_is_new.
    cbn [find id].
    rewrite (proj2 (String.eqb_neq (firstId w) (secondId w)) (firstId_secondId w)).
    rewrite String.eqb_refl. reflexivity.
  - cbn [clientId accountId recipientClientId recipientAccountId].
    repeat (split; [reflexivity|]).
    intros c. rewrite filter_app. cbn [filter clientId].
    destruct (TransferParams.fromClientId p =? c),
             (TransferParams.toClientId p =? c); reflexivity.
Qed.

(** ** Toasts and balance calls of a run *)







(** ** What no operation does *)

Lemma logs_grow_perform (o : Op) (w : World) :
  exists (calls : list BalanceCall) (msgs : list string),
    balanceCalls (perform o w) = balanceCalls w ++ calls
    /\ toasts (perform o w) = toasts w ++ msgs.
Proof.
  destruct o as [now tr | now1 now2 p | i].
  - rewrite perform_Add. autorewrite with frames. cbn [balanceCalls toasts].
    do 2 eexists. split; reflexivity.
  - rewrite perform_Transfer. autorewrite with frames. cbn [balanceCalls toasts].
    rewrite <- app_assoc. do 2 eexists. split; reflexivity.
  - destruct (getTransaction i w) as [t|] eqn:E.
    + rewrite (perform_Delete_found i w t E). autorewrite with frames.
      cbn [balanceCalls toasts]. do 2 eexists. split; reflexivity.
    + rewrite (perform_Delete_missing i w E). exists [], [].
      now rewrite !app_nil_r.
Qed.

(** X15. No run of operations sets or clears the error cell or the [loading]
    flag, whatever the amounts and ids it is given; and it only adds to the
    balance calls and toasts made so far, which stay as they were, in their
    order. *)
Theorem operations_raise_no_error_and_keep_past_calls (ops : list Op) (w : World) :
  error (performAll ops w) = error w
  /\ loading (performAll ops w) = loading w
  /\ exists (calls : list BalanceCall) (msgs : list string),
       balanceCalls (performAll ops w) = balanceCalls w ++ calls
       /\ toasts (performAll ops w) = toasts w ++ msgs.
Proof.
  split; [apply error_performAll|]. split; [apply loading_performAll|].
  revert w. induction ops as [|o ops IH]; intros w.
  - exists [], []. cbn. now rewrite !app_nil_r.
  - cbn [performAll fold_left]. fold (performAll ops (perform o w)).
    destruct (IH (perform o w)) as (calls & msgs & -> & ->).
    destruct (logs_grow_perform o w) as (calls0 & msgs0 & -> & ->).
    exists (calls0 ++ calls), (msgs0 ++ msgs). now rewrite !app_assoc.
Qed.
